(** * Ingestion and search core of the rule-search bot (bot.py)

    A shallow embedding of the functions of [bot.py] that fetch the rule
    archive, parse it into the in-memory corpus, search the corpus and
    paginate the answer, followed by the properties established for them.

    Python values are modelled as follows.
    - [str] is a list of Unicode code points ([N]); [len] is its length.
    - [bytes] is a list of [Byte.byte].
    - a [dict] is an insertion-ordered association list whose keys are
      pairwise distinct (CPython dictionaries iterate in insertion order).
    - module-level globals are fields of a record threaded through a small
      state-and-exception monad, together with the network and the clock. *)

From Stdlib Require Import Ascii String.
From Stdlib Require Import List NArith ZArith Bool Lia Sorted DecimalString.
Import ListNotations.

Set Implicit Arguments.

(** ** Python strings *)

Module Py.

Definition char := N.
Definition str := list char.
Definition bytes := list Byte.byte.

Definition len (s : str) : nat := length s.

(** Truthiness of a string: [if s:] holds for the non-empty ones. *)
Definition truthy (s : str) : bool :=
  match s with [] => false | _ :: _ => true end.

Definition char_eqb : char -> char -> bool := N.eqb.

Fixpoint str_eqb (a b : str) : bool :=
  match a, b with
  | [], [] => true
  | x :: a', y :: b' => char_eqb x y && str_eqb a' b'
  | _, _ => false
  end.

(** An ASCII literal as a [str]. *)
Fixpoint lit (s : string) : str :=
  match s with
  | EmptyString => []
  | String c s' => N_of_ascii c :: lit s'
  end.

Definition LF : char := 10%N.
Definition CR : char := 13%N.

(** [s.startswith(p)] *)
Fixpoint startswith (p s : str) : bool :=
  match p, s with
  | [], _ => true
  | _ :: _, [] => false
  | x :: p', y :: s' => char_eqb x y && startswith p' s'
  end.

(** [k in s] for strings: some suffix of [s] starts with [k]. *)
Fixpoint contains (k s : str) : bool :=
  startswith k s ||
  match s with
  | [] => false
  | _ :: s' => contains k s'
  end.

(** [s.split(sep)] for a non-empty separator: the occurrences of [sep] are
    found from left to right without overlap.  [skip] counts the code
    points of an occurrence that are still to be passed over, [cur] is the
    piece being collected. *)
Fixpoint split_go (sep : str) (skip : nat) (cur : str) (s : str) : list str :=
  match s with
  | [] => [cur]
  | c :: s' =>
      match skip with
      | S k => split_go sep k cur s'
      | O =>
          if startswith sep s
          then cur :: split_go sep (length sep - 1) [] s'
          else split_go sep 0 (cur ++ [c]) s'
      end
  end.

Definition split (sep : str) (s : str) : list str := split_go sep 0 [] s.

(** [sep.join(parts)] *)
Fixpoint join (sep : str) (parts : list str) : str :=
  match parts with
  | [] => []
  | [p] => p
  | p :: rest => p ++ sep ++ join sep rest
  end.

(** [str.isspace] on one code point, the set CPython's
    [_PyUnicode_IsWhitespace] accepts; the regex class [\s] on [str]
    patterns is the same set. *)
Definition isspace (c : char) : bool :=
  ((9 <=? c) && (c <=? 13) || (28 <=? c) && (c <=? 32) ||
   (c =? 133) || (c =? 160) || (c =? 5760) ||
   (8192 <=? c) && (c <=? 8202) || (c =? 8232) || (c =? 8233) ||
   (c =? 8239) || (c =? 8287) || (c =? 12288))%N.

Fixpoint lstrip (s : str) : str :=
  match s with
  | [] => []
  | c :: s' => if isspace c then lstrip s' else s
  end.

Definition rstrip (s : str) : str := rev (lstrip (rev s)).

(** [s.strip()] *)
Definition strip (s : str) : str := rstrip (lstrip s).

(** The line boundaries of [str.splitlines]. *)
Definition is_linebreak (c : char) : bool :=
  ((10 <=? c) && (c <=? 13) || (28 <=? c) && (c <=? 30) ||
   (c =? 133) || (c =? 8232) || (c =? 8233))%N.

(** [s.splitlines()]: a line ends at a line boundary, [\r\n] counts as one
    boundary, and no empty line is reported after a final boundary. *)
Fixpoint splitlines_go (cur : str) (s : str) : list str :=
  match s with
  | [] => if truthy cur then [cur] else []
  | c :: s' =>
      if is_linebreak c then
        match s' with
        | d :: s'' =>
            if char_eqb c CR && char_eqb d LF
            then cur :: splitlines_go [] s''
            else cur :: splitlines_go [] s'
        | [] => cur :: splitlines_go [] s'
        end
      else splitlines_go (cur ++ [c]) s'
  end.

Definition splitlines (s : str) : list str := splitlines_go [] s.

(** [enumerate(l, start)] *)
Fixpoint enumerate {A} (start : nat) (l : list A) : list (nat * A) :=
  match l with
  | [] => []
  | x :: l' => (start, x) :: enumerate (S start) l'
  end.

End Py.

Import Py.

(** ** Constants of the module *)

Definition VALID_CATEGORIES : list str := [lit "content"; lit "dns"; lit "all"].
Definition MAX_RETRIES : nat := 5.
Definition RETRY_INTERVAL : N := 5.
Definition MAX_MESSAGE_LENGTH : nat := 4096.
Definition MAX_MESSAGES : nat := 3.

(** ** Pagination: [split_message] *)

(** The notice appended on truncation, the f-string with [MAX_MESSAGES]
    already formatted in (24 code points). *)
Definition TRUNCATION_NOTICE : str :=
  [42; 27880; 24847; 65306; 42; 32; 25628; 32034; 32467; 26524; 36807;
   22810; 65292; 20165; 26174; 31034; 21069; 32; 51; 32; 26465; 28040;
   24687; 12290]%N.

(** The [for part in parts] loop.  The result is the pair of the locals
    [messages] and [current_message] when the loop is left, by exhaustion
    or by [break]. *)
Fixpoint split_message_loop (parts : list str) (messages : list str)
    (current_message : str) : list str * str :=
  match parts with
  | [] => (messages, current_message)
  | part :: parts' =>
      if MAX_MESSAGE_LENGTH <? len current_message + len part + 2 then
        if truthy current_message then
          let messages := messages ++ [current_message] in
          if MAX_MESSAGES <=? length messages
          then (messages ++ [TRUNCATION_NOTICE], current_message)
          else split_message_loop parts' messages part
        else split_message_loop parts' messages part
      else
        if truthy current_message
        then split_message_loop parts' messages
               (current_message ++ [LF; LF] ++ part)
        else split_message_loop parts' messages part
  end.

Definition split_message (message : str) : list str :=
  let parts := split [LF; LF] message in
  let '(messages, current_message) := split_message_loop parts [] [] in
  if truthy current_message && (length messages <? MAX_MESSAGES)
  then messages ++ [current_message]
  else messages.

(** ** Python dictionaries with string keys *)

Module Dict.
Section Dict.
Variable V : Type.

(** The items in insertion order. *)
Definition dict := list (str * V).

Definition keys (d : dict) : list str := map fst d.

(** [d.get(k)] *)
Fixpoint get (k : str) (d : dict) : option V :=
  match d with
  | [] => None
  | (k', v) :: d' => if str_eqb k' k then Some v else get k d'
  end.

(** [k in d] *)
Definition mem (k : str) (d : dict) : bool :=
  match get k d with Some _ => true | None => false end.

(** [d[k] = v]: an existing key keeps its place, a new one goes last. *)
Fixpoint set (k : str) (v : V) (d : dict) : dict :=
  match d with
  | [] => [(k, v)]
  | (k', v') :: d' =>
      if str_eqb k' k then (k', v) :: d' else (k', v') :: set k v d'
  end.

(** The keys of a dictionary are pairwise distinct. *)
Definition wf (d : dict) : Prop := NoDup (keys d).
End Dict.
End Dict.

Abbreviation dict := Dict.dict.

(** [d.get(k, {})] for a dictionary of dictionaries. *)
Definition get_or_empty {V} (k : str) (d : dict (dict V)) : dict V :=
  match Dict.get k d with Some inner => inner | None => [] end.

(** [d[k1][k2]], when both keys are present. *)
Definition get2 {V} (k1 k2 : str) (d : dict (dict V)) : option V :=
  match Dict.get k1 d with
  | Some inner => Dict.get k2 inner
  | None => None
  end.

(** The statements [if k1 not in d: d[k1] = {}] and [d[k1][k2] = v]. *)
Definition set2 {V} (k1 k2 : str) (v : V) (d : dict (dict V)) : dict (dict V) :=
  let d := if Dict.mem k1 d then d else Dict.set k1 [] d in
  Dict.set k1 (Dict.set k2 v (get_or_empty k1 d)) d.

(** The corpus [url_contents]: category, then URL, to content. *)
Definition Corpus := dict (dict str).

Definition corpus_wf {V} (c : dict (dict V)) : Prop :=
  Dict.wf c /\ Forall (fun item => Dict.wf (snd item)) c.

(** ** Parsing the archive members *)

(** One [TarInfo] of [tar.getmembers()].  [text] is what
    [tar.extractfile(member).read().decode('utf-8', errors='ignore')]
    evaluates to for a regular file. *)
Record TarMember := {
  name : str;
  isfile : bool;
  text : str
}.

(** Case-insensitive comparison of a subject code point with a pattern
    code point, for the pattern's ASCII symbols and small letters: the
    capital of a small letter is 32 below it, and no other code point has
    [u], [r] or [l] as its simple lower-case mapping. *)
Definition eq_ignorecase (p c : char) : bool :=
  char_eqb c p || ((97 <=? p) && (p <=? 122) && char_eqb c (p - 32))%N.

(** Consume the literal [p] at the start of [s], ignoring case. *)
Fixpoint skip_literal (p s : str) : option str :=
  match p, s with
  | [], _ => Some s
  | _ :: _, [] => None
  | x :: p', y :: s' => if eq_ignorecase x y then skip_literal p' s' else None
  end.

(** The longest prefix of [\S] code points. *)
Fixpoint nonspace_prefix (s : str) : str :=
  match s with
  | [] => []
  | c :: s' => if isspace c then [] else c :: nonspace_prefix s'
  end.

(** [re.match(r'^! url:\s*(\S+)', first_line, re.IGNORECASE)] followed by
    [group(1)]: [None] when there is no match.  Both quantifiers are
    greedy, and giving back white space cannot help [\S+]. *)
Definition url_match (first_line : str) : option str :=
  match skip_literal (lit "! url:") first_line with
  | None => None
  | Some rest =>
      let token := nonspace_prefix (lstrip rest) in
      if truthy token then Some token else None
  end.

(** The body of [for member in members]; [continue] and the skipped
    branches leave [temp_url_contents] as it is. *)
Definition process_member (temp_url_contents : Corpus) (member : TarMember) : Corpus :=
  if isfile member then
    let parts := split (lit "/") (name member) in
    if 3 <=? length parts then
      let category := nth 2 parts [] in
      let lines := splitlines (text member) in
      match lines with
      | [] => temp_url_contents
      | line0 :: rest =>
          let first_line := strip line0 in
          match url_match first_line with
          | Some url =>
              let content := join [LF] rest in
              set2 category url content temp_url_contents
          | None => temp_url_contents
          end
      end
    else temp_url_contents
  else temp_url_contents.

Definition parse_members (members : list TarMember) : Corpus :=
  fold_left process_member members [].

(** ** The runtime: globals, network, clock, exceptions *)

Inductive exn :=
  | ClientError                      (* any failure of one GET: transport, status, read *)
  | DownloadGaveUp (url : str)       (* Exception("无法下载压缩包 {url}") *)
  | DownloadEmpty                    (* Exception("未能下载压缩包") *)
  | TarError (detail : str)          (* tarfile.TarError and its subclasses *)
  | OtherError (detail : str).       (* anything else raised while reading *)

(** What a call of [re.compile] comes to: a compiled pattern, [re.error]
    with its text, or another exception, such as the [OverflowError] of a
    repetition count that is too large or a [RecursionError]. *)
Inductive compile_outcome (R : Type) :=
  | Compiled (r : R)
  | ReError (message : str)
  | CompileRaised (e : exn).
Arguments ReError {R} message.
Arguments CompileRaised {R} e.

(** Library functions of the Python runtime that the model takes as given. *)
Class Runtime := {
  (** [str.lower] *)
  lower : str -> str;
  (** [tarfile.open(fileobj=..., mode='r:gz')] with [getmembers()] and the
      reading of each regular member: the members, or what was raised. *)
  tar_open : bytes -> exn + list TarMember;
  (** compiled patterns *)
  regex : Type;
  (** [re.compile(pattern, re.IGNORECASE)] *)
  re_compile : str -> compile_outcome regex;
  (** [regex.search(line)] finds a match *)
  re_search : regex -> str -> bool
}.

Record Globals := {
  url_contents : Corpus;
  last_update_time : option Z;
  initial_load_time : option Z
}.

(** The state of the outside world next to the module's globals: [net n]
    is what the [n]-th GET of the session results in, [requests] counts
    the GETs issued, [sleeps] lists the durations passed to
    [asyncio.sleep], [clock] is what [datetime.now()] reads. *)
Record World := {
  net : nat -> exn + bytes;
  requests : nat;
  sleeps : list N;
  clock : Z;
  globals : Globals
}.

Inductive outcome (A : Type) :=
  | Return (a : A)
  | Raise (e : exn)
  | OutOfFuel.
Arguments Raise {A} e.
Arguments OutOfFuel {A}.

Definition M (A : Type) := World -> outcome A * World.

Definition ret {A} (a : A) : M A := fun w => (Return a, w).
Definition raise {A} (e : exn) : M A := fun w => (Raise e, w).
Definition bind {A B} (c : M A) (k : A -> M B) : M B :=
  fun w =>
    match c w with
    | (Return a, w') => k a w'
    | (Raise e, w') => (Raise e, w')
    | (OutOfFuel, w') => (OutOfFuel, w')
    end.

(** [try: c  except Exception as e: h e] *)
Definition try_except {A} (c : M A) (h : exn -> M A) : M A :=
  fun w =>
    match c w with
    | (Raise e, w') => h e w'
    | r => r
    end.

Declare Scope monad_scope.
Delimit Scope monad_scope with monad.
Notation "x <- c ;; k" := (bind c (fun x => k))
  (at level 61, c at next level, right associativity) : monad_scope.
Notation "c ;; k" := (bind c (fun _ => k))
  (at level 61, right associativity) : monad_scope.
Local Open Scope monad_scope.

Definition get_globals : M Globals := fun w => (Return (globals w), w).

Definition put_globals (g : Globals) : M unit :=
  fun w => (Return tt, {| net := net w; requests := requests w;
                          sleeps := sleeps w; clock := clock w; globals := g |}).

(** [session.get(url, timeout=15)], [raise_for_status()] and [read()]. *)
Definition session_get (url : str) : M bytes :=
  fun w =>
    let w' := {| net := net w; requests := S (requests w);
                 sleeps := sleeps w; clock := clock w; globals := globals w |} in
    match net w (requests w) with
    | inl e => (Raise e, w')
    | inr data => (Return data, w')
    end.

(** [asyncio.sleep(seconds)] *)
Definition sleep (seconds : N) : M unit :=
  fun w => (Return tt, {| net := net w; requests := requests w;
                          sleeps := sleeps w ++ [seconds]; clock := clock w;
                          globals := globals w |}).

(** [datetime.now()] *)
Definition datetime_now : M Z := fun w => (Return (clock w), w).

(** ** Fetching: [download_archive] *)

(** The [while retries < MAX_RETRIES] loop, with [retries] as loop state.
    Each iteration that goes round again has raised [retries], so
    [MAX_RETRIES + 1] units of fuel are never used up. *)
Fixpoint download_loop (fuel : nat) (url : str) (retries : nat) : M bytes :=
  match fuel with
  | O => fun w => (OutOfFuel, w)
  | S fuel' =>
      if retries <? MAX_RETRIES then
        try_except
          (data <- session_get url ;;
           ret data)
          (fun e =>
             let retries := retries + 1 in
             if retries <? MAX_RETRIES then
               sleep RETRY_INTERVAL ;;
               download_loop fuel' url retries
             else raise (DownloadGaveUp url))
      else ret []
  end.

Definition download_archive (url : str) : M bytes :=
  download_loop (S MAX_RETRIES) url 0.

(** ** One refresh cycle: [download_and_parse_archive] *)

Section WithRuntime.
Context {rt : Runtime}.

(** The block under [with tarfile.open(...) as tar]: read the members,
    build [temp_url_contents], then rebind the three globals.  Deleting
    the old [url_contents] before rebinding it leaves no trace. *)
Definition parse_and_publish (archive_data : bytes) : M unit :=
  match tar_open archive_data with
  | inl e => raise e
  | inr members =>
      let temp_url_contents := parse_members members in
      g <- get_globals ;;
      now <- datetime_now ;;
      let last_update_time' := Some now in
      let initial_load_time' :=
        match initial_load_time g with
        | None => last_update_time'
        | Some t => Some t
        end in
      put_globals {| url_contents := temp_url_contents;
                     last_update_time := last_update_time';
                     initial_load_time := initial_load_time' |}
  end.

Definition download_and_parse_archive (archive_url : str) : M unit :=
  archive_data <- download_archive archive_url ;;
  match archive_data with
  | [] => raise DownloadEmpty
  | _ :: _ =>
      try_except (parse_and_publish archive_data)
        (fun e => raise e)
  end.

(** ** Searching *)

(** A matching line: its 1-based number and its stripped text. *)
Definition MatchLine : Type := nat * str.
Definition SearchResult := dict (dict (list MatchLine)).

(** [VALID_CATEGORIES[:-1] if category == 'all' else [category]] *)
Definition categories_to_search (category : str) : list str :=
  if str_eqb category (lit "all") then removelast VALID_CATEGORIES
  else [category].

(** The loop over [enumerate(lines, start=1)]; [matches line] is the
    test of the [if]. *)
Definition collect_matching_lines (matches : str -> bool) (lines : list str)
  : list MatchLine :=
  fold_left
    (fun matching_lines item =>
       if matches (snd item)
       then matching_lines ++ [(fst item, strip (snd item))]
       else matching_lines)
    (enumerate 1 lines) [].

(** The body of [for url, content in url_contents.get(cat, {}).items()]. *)
Definition scan_item (matches : str -> bool) (cat : str)
    (found_results : SearchResult) (item : str * str) : SearchResult :=
  let '(url, content) := item in
  if negb (truthy content) then found_results
  else
    let lines := splitlines content in
    let matching_lines := collect_matching_lines matches lines in
    match matching_lines with
    | [] => found_results
    | _ :: _ => set2 cat url matching_lines found_results
    end.

(** The scan shared by [search] and [regex_search], from
    [found_results = {}] to the end of the loops. *)
Definition scan (matches : str -> bool) (category : str) (corpus : Corpus)
  : SearchResult :=
  fold_left
    (fun found_results cat =>
       fold_left (scan_item matches cat) (get_or_empty cat corpus) found_results)
    (categories_to_search category) [].

(** The test of [search]: [keyword in line.lower()]. *)
Definition keyword_matches (keyword : str) (line : str) : bool :=
  contains keyword (lower line).

(** ** The command handlers, up to the rendering of the answer *)

(** What a handler passes on for delivery.  The rendering of results
    into Markdown text is not modelled: [Results] and [NotFound] stand
    for the two branches of [if found_results]. *)
Inductive answer :=
  | Usage
  | InvalidCategory (category_arg : str)
  | MissingQuery
  | InvalidPattern (error : str)
  | Results (category query : str) (found_results : SearchResult)
  | NotFound (category query : str).

(** [update.message.reply_text(...)] when [update.message] is set, a
    logged warning otherwise. *)
Inductive event :=
  | Reply (a : answer)
  | LogWarning.

Definition deliver (has_message : bool) (a : answer) : list event :=
  if has_message then [Reply a] else [LogWarning].

Definition render (category query : str) (found_results : SearchResult) : answer :=
  match found_results with
  | [] => NotFound category query
  | _ :: _ => Results category query found_results
  end.

(** [search] from [if not keyword] on, with [category] and [keyword]
    as the handler has bound them. *)
Definition search_keyword (has_message : bool) (category keyword : str)
  : M (list event) :=
  if negb (truthy keyword) then ret (deliver has_message MissingQuery)
  else
    g <- get_globals ;;
    let found_results :=
      scan (keyword_matches keyword) category (url_contents g) in
    ret (deliver has_message (render category keyword found_results)).

(** [search(update, context)] *)
Definition search (has_message : bool) (args : list str) : M (list event) :=
  if length args <? 1 then ret (deliver has_message Usage)
  else
    let arg0 := hd [] args in
    if startswith (lit "/") arg0 then
      let category_arg := arg0 in
      let category := lower (tl category_arg) in
      if negb (existsb (str_eqb category) VALID_CATEGORIES)
      then ret (deliver has_message (InvalidCategory category_arg))
      else search_keyword has_message category
             (lower (join (lit " ") (tl args)))
    else search_keyword has_message (lit "all")
           (lower (join (lit " ") args)).

(** [regex_search] from [if not pattern] on.  Only [re.error] is caught
    around [re.compile]; anything else it raises leaves the handler. *)
Definition regex_search_pattern (has_message : bool) (category pattern : str)
  : M (list event) :=
  if negb (truthy pattern) then ret (deliver has_message MissingQuery)
  else
    match re_compile pattern with
    | ReError error => ret (deliver has_message (InvalidPattern error))
    | CompileRaised e => raise e
    | Compiled regex =>
        g <- get_globals ;;
        let found_results :=
          scan (re_search regex) category (url_contents g) in
        ret (deliver has_message (render category pattern found_results))
    end.

(** [regex_search(update, context)] *)
Definition regex_search (has_message : bool) (args : list str) : M (list event) :=
  if length args <? 1 then ret (deliver has_message Usage)
  else
    let arg0 := hd [] args in
    if startswith (lit "/") arg0 then
      let category_arg := arg0 in
      let category := lower (tl category_arg) in
      if negb (existsb (str_eqb category) VALID_CATEGORIES)
      then ret (deliver has_message (InvalidCategory category_arg))
      else regex_search_pattern has_message category
             (join (lit " ") (tl args))
    else regex_search_pattern has_message (lit "all")
           (join (lit " ") args).

End WithRuntime.

(** ** Administration and bookkeeping *)

Definition ARCHIVE_URL : str :=
  lit "https://github.com/Cats-Team/upstream-artifacts/raw/refs/heads/main/archive.tar.gz".

(** [is_user_admin(user_id)]: [user_id in ADMIN_IDS] *)
Definition is_user_admin (ADMIN_IDS : list Z) (user_id : Z) : bool :=
  existsb (Z.eqb user_id) ADMIN_IDS.

(** What [fetchnow] passes on for delivery. *)
Inductive admin_answer :=
  | PermissionDenied
  | ReloadSucceeded
  | ReloadFailed.

Inductive admin_event :=
  | AdminReply (a : admin_answer)
  | AdminLogWarning.

(** [update.message.reply_text(...)] under [if update.message], a logged
    warning otherwise.  Sending is a request of its own and can fail:
    [raises a] is what sending the answer [a] raises, if it does. *)
Definition reply_text (has_message : bool) (raises : admin_answer -> option exn)
    (a : admin_answer) : M (list admin_event) :=
  if has_message then
    match raises a with
    | Some e => raise e
    | None => ret [AdminReply a]
    end
  else ret [AdminLogWarning].

(** [not user_id or not is_user_admin(user_id)] with [user_id] the id of
    [update.effective_user], or [None] without a user. *)
Definition not_admin (ADMIN_IDS : list Z) (user_id : option Z) : bool :=
  match user_id with
  | None => true
  | Some id => (id =? 0)%Z || negb (is_user_admin ADMIN_IDS id)
  end.

(** The clock moves on to [t]: time passes while the program sleeps. *)
Definition elapse (t : Z) : M unit :=
  fun w => (Return tt, {| net := net w; requests := requests w;
                          sleeps := sleeps w; clock := t; globals := globals w |}).

Section AdminHandlers.
Context {rt : Runtime}.

(** [fetchnow(update, context)].  The reply that reports success is sent
    inside the [try], so that its failure is handled like a failure of the
    refresh; the other two replies are sent outside any handler. *)
Definition fetchnow (ADMIN_IDS : list Z) (user_id : option Z) (has_message : bool)
    (raises : admin_answer -> option exn) : M (list admin_event) :=
  if not_admin ADMIN_IDS user_id
  then reply_text has_message raises PermissionDenied
  else
    try_except
      (download_and_parse_archive ARCHIVE_URL ;;
       reply_text has_message raises ReloadSucceeded)
      (fun e => reply_text has_message raises ReloadFailed).

(** [periodic_update(archive_url)].  The [while True] loop has no exit:
    the model runs one round for each clock reading it is given, the
    reading being what the clock shows when the hour's sleep is over, and
    is out of fuel when the readings are used up. *)
Fixpoint periodic_update (readings : list Z) (archive_url : str) : M unit :=
  match readings with
  | [] => fun w => (OutOfFuel, w)
  | t :: readings' =>
      sleep (60 * 60) ;;
      elapse t ;;
      try_except (download_and_parse_archive archive_url) (fun e => ret tt) ;;
      periodic_update readings' archive_url
  end.

End AdminHandlers.

(** Dictionaries with integer keys, as [recent_user_ids]. *)
Module IntDict.
Section IntDict.
Variable V : Type.

Definition t := list (Z * V).

Definition keys (d : t) : list Z := map fst d.

Fixpoint get (k : Z) (d : t) : option V :=
  match d with
  | [] => None
  | (k', v) :: d' => if (k' =? k)%Z then Some v else get k d'
  end.

(** [d[k] = v] *)
Fixpoint set (k : Z) (v : V) (d : t) : t :=
  match d with
  | [] => [(k, v)]
  | (k', v') :: d' =>
      if (k' =? k)%Z then (k', v) :: d' else (k', v') :: set k v d'
  end.

(** [del d[k]]: [None] stands for the [KeyError] of a missing key. *)
Fixpoint del (k : Z) (d : t) : option t :=
  match d with
  | [] => None
  | (k', v) :: d' =>
      if (k' =? k)%Z then Some d'
      else match del k d' with
           | Some d'' => Some ((k', v) :: d'')
           | None => None
           end
  end.

Definition wf (d : t) : Prop := NoDup (keys d).
End IntDict.
End IntDict.

(** [timedelta(hours=1)], with time counted in microseconds as [datetime]
    counts it. *)
Definition HOUR : Z := 3600000000.

(** The bookkeeping that the wrapper of [log_user_command] does before it
    calls the handler: record the user at the time [now], then delete the
    users last seen more than an hour ago.  [user_id] is [None] without a
    user.  [None] as result stands for a [KeyError]. *)
Definition log_user_command (user_id : option Z) (now : Z)
    (recent_user_ids : IntDict.t Z) : option (IntDict.t Z) :=
  match user_id with
  | None => Some recent_user_ids
  | Some uid =>
      let recent_user_ids := IntDict.set uid now recent_user_ids in
      let cutoff_time := (now - HOUR)%Z in
      let uids_to_remove :=
        map fst (filter (fun item => (snd item <? cutoff_time)%Z) recent_user_ids) in
      fold_left
        (fun d uid => match d with Some d' => IntDict.del uid d' | None => None end)
        uids_to_remove (Some recent_user_ids)
  end.

(** [str(user_id)] *)
Definition str_of_int (z : Z) : str := lit (NilZero.string_of_int (Z.to_int z)).

(** [format_user_id(user_id)] of [xinfo] *)
Definition format_user_id (ADMIN_IDS : list Z) (user_id : Z) : str :=
  let uid_str := str_of_int user_id in
  let masked_uid :=
    if len uid_str <=? 4 then uid_str
    else firstn 2 uid_str ++ repeat 42%N (len uid_str - 4) ++
         skipn (len uid_str - 2) uid_str in
  if is_user_admin ADMIN_IDS user_id then masked_uid ++ lit " #" else masked_uid.

(** [user_ids_within_hour] of [xinfo]: the users seen within the hour
    before [now]. *)
Definition user_ids_within_hour (now : Z) (recent_user_ids : IntDict.t Z) : list Z :=
  map fst (filter (fun item => (now - HOUR <=? snd item)%Z) recent_user_ids).

(** ** Vocabulary of the statements *)

(** The [n]-th GET counted from the current state of [w] fails. *)
Definition fails_at (w : World) (n : nat) : Prop :=
  exists e, net w (requests w + n) = inl e.

(** The world after [gets] further GETs and [waits] further waits. *)
Definition after_attempts (w : World) (gets waits : nat) : World :=
  {| net := net w; requests := requests w + gets;
     sleeps := sleeps w ++ repeat RETRY_INTERVAL waits;
     clock := clock w; globals := globals w |}.

(** The module as it is loaded: no corpus, no time stamp. *)
Definition initial_globals : Globals :=
  {| url_contents := []; last_update_time := None; initial_load_time := None |}.

(** What the environment contributes to one refresh cycle: the answers of
    the network and the reading of the clock. *)
Record Cycle := {
  cycle_net : nat -> exn + bytes;
  cycle_time : Z
}.

Definition start_cycle (c : Cycle) (g : Globals) : World :=
  {| net := cycle_net c; requests := 0; sleeps := []; clock := cycle_time c;
     globals := g |}.




Section RefreshVocabulary.
Context {rt : Runtime}.


(** A cycle fails in fetching when each of its [MAX_RETRIES] GETs fails,
    and in reading when the downloaded bytes do not open as an archive. *)
Definition fetch_fails (w : World) : Prop :=
  forall n, n < MAX_RETRIES -> fails_at w n.

Definition read_fails (url : str) (w : World) : Prop :=
  exists data w1 e,
    download_archive url w = (Return data, w1) /\ tar_open data = inl e.

(** The globals after a successful build from [members] at time [now]. *)
Definition published (members : list TarMember) (now : Z) (g : Globals) : Globals :=
  {| url_contents := parse_members members;
     last_update_time := Some now;
     initial_load_time :=
       match initial_load_time g with
       | None => Some now
       | Some t => Some t
       end |}.
End RefreshVocabulary.

(** A string that is empty or begins with a code point of the given kind. *)
Definition starts_with_space (s : str) : Prop :=
  s = [] \/ exists c s', s = c :: s' /\ isspace c = true.

Definition starts_with_nonspace (s : str) : Prop :=
  s = [] \/ exists c s', s = c :: s' /\ isspace c = false.

(** The directive pattern of the code, [^! url:\s*(\S+)] with
    [re.IGNORECASE], read as a relation between a line and the captured
    token: the literal, white space, the token as the longest run of
    code points that are not white space, and whatever follows. *)
Definition directive_matches (line url : str) : Prop :=
  exists literal ws rest,
    line = literal ++ ws ++ url ++ rest /\
    Forall2 (fun p c => eq_ignorecase p c = true) (lit "! url:") literal /\
    Forall (fun c => isspace c = true) ws /\
    url <> [] /\
    Forall (fun c => isspace c = false) url /\
    (rest = [] \/ exists c rest', rest = c :: rest' /\ isspace c = true).

(** The directive pattern as the specification words it,
    [^!\s*url:\s*(\S+)] ignoring case, applied like [re.match]: the
    captured token, or [None]. *)
Definition spec_url_match (line : str) : option str :=
  match skip_literal (lit "!") line with
  | None => None
  | Some rest =>
      match skip_literal (lit "url:") (lstrip rest) with
      | None => None
      | Some rest' =>
          let token := nonspace_prefix (lstrip rest') in
          if truthy token then Some token else None
      end
  end.

(** The category, URL and content that a member contributes to the
    corpus, if it contributes. *)
Definition entry_of (member : TarMember) : option (str * str * str) :=
  match process_member [] member with
  | [(category, [(url, content)])] => Some (category, url, content)
  | _ => None
  end.


(** The matching lines of one content, as the scan collects them. *)
Definition hits_of (matches : str -> bool) (content : str) : list MatchLine :=
  collect_matching_lines matches (splitlines content).

(** What the scan leaves at one category and URL: the matching lines of
    the content found there when there are any, and otherwise what was
    there before. *)
Definition lookup_hit (matches : str -> bool) (source : option str)
    (before : option (list (nat * str))) : option (list (nat * str)) :=
  match source with
  | Some content =>
      match hits_of matches content with
      | [] => before
      | _ :: _ => Some (hits_of matches content)
      end
  | None => before
  end.

(** [matching_lines] lists exactly the lines of [content] that satisfy
    [hit], each as its 1-based number with its stripped text, in ascending
    order of line number. *)
Definition is_match_list (hit : str -> Prop) (content : str)
    (matching_lines : list (nat * str)) : Prop :=
  (forall n t,
      In (n, t) matching_lines <->
      exists line,
        1 <= n /\ nth_error (splitlines content) (n - 1) = Some line /\
        hit line /\ t = strip line) /\
  StronglySorted lt (map fst matching_lines).

Section SearchVocabulary.
Context {rt : Runtime}.

End SearchVocabulary.

(** The runtime of the closed examples: ASCII case folding, an archive
    reader that accepts the one-byte archive [x1f] only, and patterns
    that are plain keywords, except for an opening parenthesis, which is
    no valid pattern, and a repetition count beyond the limit. *)
Definition ascii_lower (s : str) : str :=
  map (fun c => if ((65 <=? c) && (c <=? 90))%N then (c + 32)%N else c) s.

Definition example_members : list TarMember :=
  [ {| name := lit "./tmp/dns/a.txt"; isfile := true;
       text := lit "! url: http://x/a" ++ [LF] ++ lit "||Ads.example^" ++ [LF] ++
               lit "plain" ++ [LF] ++ lit "  @@ads  " |};
    {| name := lit "./tmp/extra/b.txt"; isfile := true;
       text := lit "! URL:   http://x/b" ++ [LF] ++ lit "rule" |};
    {| name := lit "./tmp/dns/c.txt"; isfile := true;
       text := lit "!url: http://x/c" ++ [LF] ++ lit "rule" |} ].

Definition example_runtime : Runtime :=
  {| lower := ascii_lower;
     tar_open := fun data =>
       match data with
       | [Byte.x1f] => inr example_members
       | _ => inl (TarError (lit "not a gzip file"))
       end;
     regex := str;
     re_compile := fun pattern =>
       if str_eqb pattern (lit "(")
       then ReError (lit "missing ), unterminated subpattern at position 0")
       else if str_eqb pattern (lit "a{4294967296}")
       then CompileRaised (OtherError (lit "OverflowError: the repetition number is too large"))
       else Compiled pattern;
     re_search := fun regex line => contains (ascii_lower regex) (ascii_lower line) |}.

(** A network on which the first [k] GETs fail and the later ones answer
    with [data]. *)
Definition failing_then (k : nat) (data : bytes) : nat -> exn + bytes :=
  fun n => if n <? k then inl ClientError else inr data.

Definition example_world (k : nat) (data : bytes) : World :=
  start_cycle {| cycle_net := failing_then k data; cycle_time := 100 |} initial_globals.

(** * Properties *)

(** ** Strings *)

Lemma char_eqb_eq (a b : char) : char_eqb a b = true <-> a = b.
Proof. apply N.eqb_eq. Qed.

Lemma str_eqb_eq (a b : str) : str_eqb a b = true <-> a = b.
Proof.
  revert b; induction a as [|x a IH]; intros [|y b]; simpl;
    try (split; [discriminate | congruence]); try tauto.
  rewrite andb_true_iff, char_eqb_eq, IH.
  split; [intros [-> ->]; reflexivity | intros H; injection H; auto].
Qed.

Lemma str_eqb_refl (a : str) : str_eqb a a = true.
Proof. apply str_eqb_eq; reflexivity. Qed.

Lemma str_eqb_sym (a b : str) : str_eqb a b = str_eqb b a.
Proof.
  destruct (str_eqb a b) eqn:E1, (str_eqb b a) eqn:E2; try reflexivity.
  - apply str_eqb_eq in E1. subst. rewrite str_eqb_refl in E2. discriminate.
  - apply str_eqb_eq in E2. subst. rewrite str_eqb_refl in E1. discriminate.
Qed.

Lemma str_eqb_neq (a b : str) : a <> b -> str_eqb a b = false.
Proof.
  intros H; destruct (str_eqb a b) eqn:E; [|reflexivity].
  apply str_eqb_eq in E; contradiction.
Qed.

Lemma str_eq_dec (a b : str) : {a = b} + {a <> b}.
Proof. apply list_eq_dec, N.eq_dec. Qed.

Lemma truthy_true (s : str) : truthy s = true <-> s <> [].
Proof. destruct s; simpl; split; congruence. Qed.

Lemma startswith_spec (p s : str) :
  startswith p s = true <-> exists t, s = p ++ t.
Proof.
  revert s; induction p as [|x p IH]; intros s; simpl.
  - split; [exists s; reflexivity | reflexivity].
  - destruct s as [|y s].
    + split; [discriminate | intros [t Ht]; discriminate].
    + rewrite andb_true_iff, char_eqb_eq, IH; split.
      * intros [-> [t ->]]; exists t; reflexivity.
      * intros [t Ht]; injection Ht as -> ->; split; [reflexivity | exists t; reflexivity].
Qed.


(** ** Pagination *)

Lemma split_message_loop_nonempty (parts messages : list str) (current_message : str) :
  Forall (fun chunk => chunk <> []) messages ->
  Forall (fun chunk => chunk <> []) (fst (split_message_loop parts messages current_message)).
Proof.
  revert messages current_message.
  induction parts as [|part parts IH]; intros messages cur Hm; cbn [split_message_loop fst]; [exact Hm|].
  destruct (MAX_MESSAGE_LENGTH <? len cur + len part + 2).
  - destruct (truthy cur) eqn:Hc; [|apply IH; exact Hm].
    assert (Hm' : Forall (fun chunk => chunk <> []) (messages ++ [cur])).
    { apply Forall_app; split; [exact Hm|].
      constructor; [apply truthy_true; exact Hc | constructor]. }
    destruct (MAX_MESSAGES <=? length (messages ++ [cur])); [|apply IH; exact Hm'].
    cbn [fst]. apply Forall_app; split; [exact Hm'|].
    constructor; [discriminate | constructor].
  - destruct (truthy cur); apply IH; exact Hm.
Qed.

(** The loop leaves fewer than [MAX_MESSAGES] messages when it runs to the
    end, and [MAX_MESSAGES] chunks followed by the notice when it breaks. *)
Lemma split_message_loop_length (parts messages : list str) (current_message : str) :
  length messages < MAX_MESSAGES ->
  let r := fst (split_message_loop parts messages current_message) in
  length r < MAX_MESSAGES \/
  (length r = S MAX_MESSAGES /\ last r [] = TRUNCATION_NOTICE).
Proof.
  revert messages current_message.
  induction parts as [|part parts IH]; intros messages cur Hm; cbn [split_message_loop fst]; [left; exact Hm|].
  destruct (MAX_MESSAGE_LENGTH <? len cur + len part + 2).
  - destruct (truthy cur); [|apply IH; exact Hm].
    destruct (MAX_MESSAGES <=? length (messages ++ [cur])) eqn:E.
    + right; cbn [fst]. apply Nat.leb_le in E.
      rewrite !length_app in *; cbn [length] in *.
      split; [unfold MAX_MESSAGES in *; lia | apply last_last].
    + apply Nat.leb_gt in E. apply IH; exact E.
  - destruct (truthy cur); apply IH; exact Hm.
Qed.

(** What the code guarantees about the number of messages: one more than
    [MAX_MESSAGES] at most. *)
Lemma split_message_length (message : str) :
  length (split_message message) <= S MAX_MESSAGES.
Proof.
  unfold split_message.
  pose proof (@split_message_loop_length (split [LF; LF] message) [] []) as H.
  destruct (split_message_loop (split [LF; LF] message) [] []) as [messages cur].
  simpl in H. specialize (H ltac:(unfold MAX_MESSAGES; lia)).
  destruct (truthy cur && (length messages <? MAX_MESSAGES)) eqn:E.
  - apply andb_true_iff in E as [_ E]. apply Nat.ltb_lt in E.
    rewrite length_app; simpl; lia.
  - destruct H as [H | [H _]]; lia.
Qed.

(** C1 (evaluation at the failing input).  Four paragraphs of 2048 code
    points, separated by blank lines, are paginated into four messages:
    three chunks followed by the truncation notice, one message more than
    [MAX_MESSAGES]. *)
Theorem C1_split_message_returns_four_messages :
  let p := repeat 97%N 2048 in
  let message := p ++ [LF; LF] ++ p ++ [LF; LF] ++ p ++ [LF; LF] ++ p in
  split_message message = [p; p; p; TRUNCATION_NOTICE] /\
  MAX_MESSAGES < length (split_message message).
Proof. vm_compute. split; [reflexivity | lia]. Qed.

(** C10.  Every chunk that [split_message] returns is a non-empty string,
    and the empty message is paginated into no chunk at all. *)
Theorem C10_split_message_chunks_nonempty :
  (forall message : str, Forall (fun chunk => chunk <> []) (split_message message)) /\
  split_message [] = [].
Proof.
  split; [|reflexivity].
  intros message. unfold split_message.
  pose proof (@split_message_loop_nonempty (split [LF; LF] message) [] [] (Forall_nil _)) as H.
  destruct (split_message_loop (split [LF; LF] message) [] []) as [messages cur].
  simpl in H.
  destruct (truthy cur) eqn:Hc; simpl; [|exact H].
  destruct (length messages <? MAX_MESSAGES); [|exact H].
  apply Forall_app; split; [exact H|].
  constructor; [apply truthy_true; exact Hc | constructor].
Qed.

(** ** Fetching *)

Lemma world_eq (w w' : World) :
  net w = net w' -> requests w = requests w' -> sleeps w = sleeps w' ->
  clock w = clock w' -> globals w = globals w' -> w = w'.
Proof. destruct w, w'; simpl; intros; subst; reflexivity. Qed.

Ltac world_eq :=
  apply world_eq; simpl;
  first [ reflexivity | lia | symmetry; apply app_nil_r
        | rewrite <- app_assoc; reflexivity ].

Lemma ltb_true (a b : nat) : a < b -> (a <? b) = true.
Proof. apply Nat.ltb_lt. Qed.

Lemma ltb_false (a b : nat) : b <= a -> (a <? b) = false.
Proof. apply Nat.ltb_ge. Qed.

Lemma download_loop_success (k : nat) :
  forall fuel url retries w data,
    k < fuel -> retries + k < MAX_RETRIES ->
    (forall n, n < k -> fails_at w n) ->
    net w (requests w + k) = inr data ->
    download_loop fuel url retries w = (Return data, after_attempts w (S k) k).
Proof.
  induction k as [|k IH]; intros fuel url retries w data Hfuel Hr Hfail Hok;
    (destruct fuel as [|fuel]; [lia|]); cbn [download_loop];
    rewrite ltb_true by lia; unfold try_except, bind, session_get.
  - rewrite Nat.add_0_r in Hok. rewrite Hok. unfold ret. f_equal.
    world_eq.
  - destruct (Hfail 0 ltac:(lia)) as [e He]. rewrite Nat.add_0_r in He.
    rewrite He. rewrite ltb_true by lia. unfold sleep at 1.
    erewrite IH; [| lia | lia | |].
    + f_equal. world_eq.
    + intros n Hn. destruct (Hfail (S n) ltac:(lia)) as [e' He'].
      exists e'. simpl. rewrite <- He'. f_equal. lia.
    + simpl. rewrite <- Hok. f_equal. lia.
Qed.

Lemma download_loop_give_up (k : nat) :
  forall fuel url retries w,
    k < fuel -> retries + S k = MAX_RETRIES ->
    (forall n, n <= k -> fails_at w n) ->
    download_loop fuel url retries w =
      (Raise (DownloadGaveUp url), after_attempts w (S k) k).
Proof.
  induction k as [|k IH]; intros fuel url retries w Hfuel Hr Hfail;
    (destruct fuel as [|fuel]; [lia|]); cbn [download_loop];
    rewrite ltb_true by lia; unfold try_except, bind, session_get;
    destruct (Hfail 0 ltac:(lia)) as [e He]; rewrite Nat.add_0_r in He;
    rewrite He.
  - rewrite ltb_false by lia. unfold raise. f_equal.
    world_eq.
  - rewrite ltb_true by lia. unfold sleep at 1.
    erewrite IH; [| lia | lia |].
    + f_equal. world_eq.
    + intros n Hn. destruct (Hfail (S n) ltac:(lia)) as [e' He'].
      exists e'. simpl. rewrite <- He'. f_equal. lia.
Qed.

(** The loop never runs out of fuel, and it leaves the globals alone. *)
Lemma download_loop_total (fuel : nat) :
  forall url retries w,
    MAX_RETRIES - retries < fuel ->
    fst (download_loop fuel url retries w) <> OutOfFuel /\
    globals (snd (download_loop fuel url retries w)) = globals w.
Proof.
  induction fuel as [|fuel IH]; intros url retries w Hfuel; [lia|].
  cbn [download_loop].
  destruct (Nat.ltb_spec retries MAX_RETRIES) as [Hlt|Hge];
    [|split; [discriminate | reflexivity]].
  unfold try_except, bind, session_get.
  destruct (net w (requests w)) as [e|data]; [|split; [discriminate | reflexivity]].
  destruct (Nat.ltb_spec (retries + 1) MAX_RETRIES) as [Hlt'|Hge'];
    [|split; [discriminate | reflexivity]].
  unfold sleep.
  match goal with |- context [download_loop fuel url (retries + 1) ?w1] =>
    destruct (IH url (retries + 1) w1 ltac:(lia)) as [H1 H2];
    destruct (download_loop fuel url (retries + 1) w1) as [[a|e'|] w2] eqn:E
  end; simpl in *; (split; [congruence | exact H2]).
Qed.

Lemma download_loop_clock (fuel : nat) :
  forall url retries w, clock (snd (download_loop fuel url retries w)) = clock w.
Proof.
  induction fuel as [|fuel IH]; intros url retries w; [reflexivity|].
  cbn [download_loop].
  destruct (retries <? MAX_RETRIES); [|reflexivity].
  unfold try_except, bind, session_get.
  destruct (net w (requests w)) as [e|data]; [|reflexivity].
  destruct (retries + 1 <? MAX_RETRIES); [|reflexivity].
  unfold sleep. rewrite IH. reflexivity.
Qed.

Lemma download_archive_total (url : str) (w : World) :
  fst (download_archive url w) <> OutOfFuel /\
  globals (snd (download_archive url w)) = globals w.
Proof. apply download_loop_total. unfold MAX_RETRIES. lia. Qed.

(** C5.  When the first four GETs fail: if the fifth succeeds,
    [download_archive] returns its bytes; if the fifth fails too, it raises
    the terminal error.  Either way there are five GETs and exactly four
    waits of [RETRY_INTERVAL], none after the last attempt. *)
Theorem C5_download_archive_four_waits (url : str) (w : World) :
  (forall n, n < 4 -> fails_at w n) ->
  (forall data, net w (requests w + 4) = inr data ->
     download_archive url w = (Return data, after_attempts w 5 4)) /\
  (fails_at w 4 ->
     download_archive url w = (Raise (DownloadGaveUp url), after_attempts w 5 4)) /\
  sleeps (after_attempts w 5 4) =
    sleeps w ++ [RETRY_INTERVAL; RETRY_INTERVAL; RETRY_INTERVAL; RETRY_INTERVAL].
Proof.
  intros Hfail. split; [|split; [|reflexivity]].
  - intros data Hok. apply (@download_loop_success 4); unfold MAX_RETRIES; auto; lia.
  - intros H4. apply (@download_loop_give_up 4); unfold MAX_RETRIES; auto.
    intros n Hn. destruct (Nat.eq_dec n 4) as [->|Hne]; [exact H4 | apply Hfail; lia].
Qed.

(** ** Refresh cycles *)

Section Refresh.
Context {rt : Runtime}.

Lemma download_and_parse_archive_unfold (url : str) (w : World) :
  download_and_parse_archive url w =
    match download_archive url w with
    | (Return [], w1) => (Raise DownloadEmpty, w1)
    | (Return data, w1) =>
        match tar_open data with
        | inl e => (Raise e, w1)
        | inr members =>
            (Return tt,
             {| net := net w1; requests := requests w1; sleeps := sleeps w1;
                clock := clock w1;
                globals := published members (clock w1) (globals w1) |})
        end
    | (Raise e, w1) => (Raise e, w1)
    | (OutOfFuel, w1) => (OutOfFuel, w1)
    end.
Proof.
  unfold download_and_parse_archive, bind.
  destruct (download_archive url w) as [[data|e|] w1]; try reflexivity.
  destruct data as [|b data]; [reflexivity|].
  unfold try_except, parse_and_publish.
  destruct (tar_open (b :: data)) as [e|members]; reflexivity.
Qed.

(** A cycle publishes a whole new corpus or nothing: it returns with the
    globals rebuilt from the archive, or raises with the globals as they
    were. *)
Lemma download_and_parse_archive_all_or_nothing (url : str) (w : World) :
  (exists w' members,
      download_and_parse_archive url w = (Return tt, w') /\
      globals w' = published members (clock w) (globals w)) \/
  (exists e w',
      download_and_parse_archive url w = (Raise e, w') /\
      globals w' = globals w).
Proof.
  rewrite download_and_parse_archive_unfold.
  destruct (download_archive_total url w) as [Hfuel Hg].
  pose proof (download_loop_clock (S MAX_RETRIES) url 0 w) as Hc.
  fold (download_archive url w) in Hc.
  destruct (download_archive url w) as [[data|e|] w1]; simpl in *.
  - destruct data as [|b data]; [right; eauto|].
    destruct (tar_open (b :: data)) as [e|members]; [right; eauto|].
    left. eexists; exists members. split; [reflexivity|].
    simpl. rewrite Hc, Hg. reflexivity.
  - right; eauto.
  - congruence.
Qed.

(** C6.  A refresh cycle that fails in fetching, or in opening and
    reading the archive, raises and leaves the corpus and both time
    stamps exactly as they were. *)
Theorem C6_failed_refresh_publishes_nothing (url : str) (w : World) :
  fetch_fails w \/ read_fails url w ->
  exists e w',
    download_and_parse_archive url w = (Raise e, w') /\
    url_contents (globals w') = url_contents (globals w) /\
    initial_load_time (globals w') = initial_load_time (globals w) /\
    last_update_time (globals w') = last_update_time (globals w).
Proof.
  intros H.
  assert (exists e w', download_and_parse_archive url w = (Raise e, w') /\
                       globals w' = globals w) as [e [w' [Hr Hg]]].
  { rewrite download_and_parse_archive_unfold.
    destruct H as [Hfetch | [data [w1 [e [Hd He]]]]].
    - unfold download_archive.
      rewrite (@download_loop_give_up 4);
        [| unfold MAX_RETRIES; lia | reflexivity
         | intros n Hn; apply Hfetch; unfold MAX_RETRIES; lia ].
      eexists; eexists; split; reflexivity.
    - destruct (download_archive_total url w) as [_ Hg].
      rewrite Hd in *. simpl in Hg.
      destruct data as [|b data]; [eauto|]. rewrite He. eauto. }
  exists e, w'. rewrite Hg. auto.
Qed.

(** C9.  A download that succeeds with an empty body, at whichever
    attempt, makes the cycle raise before the archive is opened, with the
    corpus and the time stamps unchanged. *)
Theorem C9_empty_download_is_a_failure (url : str) (w : World) (k : nat) :
  k < MAX_RETRIES ->
  (forall n, n < k -> fails_at w n) ->
  net w (requests w + k) = inr [] ->
  download_and_parse_archive url w =
    (Raise DownloadEmpty, after_attempts w (S k) k) /\
  globals (after_attempts w (S k) k) = globals w.
Proof.
  intros Hk Hfail Hempty. split; [|reflexivity].
  rewrite download_and_parse_archive_unfold. unfold download_archive.
  rewrite (@download_loop_success k _ _ _ _ []) by (auto; lia).
  reflexivity.
Qed.

End Refresh.

(** ** Time stamps across refresh cycles *)





Lemma StronglySorted_map_filter {A B} (R : B -> B -> Prop) (f : A -> B)
    (p : A -> bool) (l : list A) :
  StronglySorted R (map f l) -> StronglySorted R (map f (filter p l)).
Proof.
  induction l as [|a l IH]; intros H; simpl; [constructor|].
  simpl in H. apply StronglySorted_inv in H as [Hs Hall].
  destruct (p a); [|apply IH; exact Hs].
  simpl. constructor; [apply IH; exact Hs|].
  rewrite Forall_forall in *. intros z Hz.
  apply Hall. apply in_map_iff in Hz as [b [<- Hb]].
  apply in_map. apply filter_In in Hb. tauto.
Qed.


Section Timestamps.
Context {rt : Runtime}.



(** ** Regex search *)

(** C7 (evaluation at the failing input).  When [re.compile] raises
    something that is not [re.error], as it does with [OverflowError] for
    the pattern [a{4294967296}], the handler raises it: no invalid-pattern
    answer is delivered, nor any other. *)
Theorem C7_compile_exception_escapes_unreported
    (has_message : bool) (category pattern : str) (e : exn) (w : World) :
  pattern <> [] ->
  re_compile pattern = CompileRaised e ->
  regex_search_pattern has_message category pattern w = (Raise e, w).
Proof.
  intros Hp He. apply truthy_true in Hp.
  unfold regex_search_pattern. rewrite Hp, He. reflexivity.
Qed.

End Timestamps.

(** ** Dictionaries *)

Section DictFacts.
Context {V : Type}.
Implicit Types (d : dict V) (k : str) (v : V).

Lemma get_set_eq d k v : Dict.get k (Dict.set k v d) = Some v.
Proof.
  induction d as [|[k' v'] d IH]; simpl.
  - rewrite str_eqb_refl. reflexivity.
  - destruct (str_eqb k' k) eqn:E; simpl; rewrite E; [reflexivity | exact IH].
Qed.

Lemma get_set_ne d k k' v : k <> k' -> Dict.get k' (Dict.set k v d) = Dict.get k' d.
Proof.
  intros Hne. induction d as [|[k0 v0] d IH]; simpl.
  - rewrite str_eqb_neq by exact Hne. reflexivity.
  - destruct (str_eqb k0 k) eqn:E; simpl.
    + apply str_eqb_eq in E. subst k0.
      rewrite str_eqb_neq by exact Hne. reflexivity.
    + rewrite IH. reflexivity.
Qed.

Lemma get_Some_In d k v : Dict.get k d = Some v -> In (k, v) d.
Proof.
  induction d as [|[k0 v0] d IH]; simpl; [discriminate|].
  destruct (str_eqb k0 k) eqn:E.
  - apply str_eqb_eq in E. intros H; injection H as ->. left; congruence.
  - intros H. right. apply IH. exact H.
Qed.

Lemma get_None_keys d k : Dict.get k d = None <-> ~ In k (Dict.keys d).
Proof.
  induction d as [|[k0 v0] d IH]; simpl; [tauto|].
  destruct (str_eqb k0 k) eqn:E.
  - apply str_eqb_eq in E. split; [discriminate | intros H; exfalso; apply H; auto].
  - rewrite IH. split; [|tauto].
    intros H [H0|H0]; [|tauto]. subst k0. rewrite str_eqb_refl in E. discriminate.
Qed.

Lemma In_set d k v k' v' :
  In (k', v') (Dict.set k v d) -> (k' = k /\ v' = v) \/ In (k', v') d.
Proof.
  induction d as [|[k0 v0] d IH]; simpl.
  - intros [H|[]]. injection H as <- <-. auto.
  - destruct (str_eqb k0 k) eqn:E; simpl.
    + apply str_eqb_eq in E. subst k0.
      intros [H|H]; [injection H as <- <-; auto | auto].
    + intros [H|H]; [auto|]. destruct (IH H); auto.
Qed.

Lemma keys_set_incl d k v k' :
  In k' (Dict.keys (Dict.set k v d)) -> k' = k \/ In k' (Dict.keys d).
Proof.
  unfold Dict.keys. intros H. apply in_map_iff in H as [[k0 v0] [<- H]].
  apply In_set in H as [[-> _]|H]; [auto|].
  right. apply in_map_iff. exists (k0, v0). auto.
Qed.

Lemma wf_set d k v : Dict.wf d -> Dict.wf (Dict.set k v d).
Proof.
  unfold Dict.wf. induction d as [|[k0 v0] d IH]; simpl; intros H.
  - constructor; [intros [] | constructor].
  - apply NoDup_cons_iff in H as [Hn Hd].
    destruct (str_eqb k0 k) eqn:E; simpl.
    + constructor; assumption.
    + constructor; [|apply IH; exact Hd].
      intros Hin. apply keys_set_incl in Hin as [->|Hin]; [|contradiction].
      rewrite str_eqb_refl in E. discriminate.
Qed.

End DictFacts.

Section Dict2Facts.
Context {V : Type}.
Implicit Types (d : dict (dict V)) (v : V).

Lemma get2_set2_eq d k1 k2 v : get2 k1 k2 (set2 k1 k2 v d) = Some v.
Proof.
  unfold get2, set2. rewrite get_set_eq. apply get_set_eq.
Qed.

Lemma get2_set2_ne d k1 k2 k1' k2' v :
  (k1, k2) <> (k1', k2') -> get2 k1' k2' (set2 k1 k2 v d) = get2 k1' k2' d.
Proof.
  intros Hne. unfold get2, set2, get_or_empty, Dict.mem.
  destruct (str_eq_dec k1 k1') as [<-|Hk1].
  - assert (Hk2 : k2 <> k2') by congruence.
    rewrite get_set_eq.
    destruct (Dict.get k1 d) as [inner|] eqn:E.
    + rewrite E. apply get_set_ne; exact Hk2.
    + rewrite get_set_eq. rewrite get_set_ne by exact Hk2. reflexivity.
  - rewrite get_set_ne by exact Hk1.
    destruct (Dict.get k1 d); [reflexivity|].
    rewrite get_set_ne by exact Hk1. reflexivity.
Qed.

Lemma corpus_wf_set2 d k1 k2 v : corpus_wf d -> corpus_wf (set2 k1 k2 v d).
Proof.
  intros [Hwf Hall]. unfold set2, get_or_empty, Dict.mem.
  assert (Hstep : forall d' inner,
             corpus_wf d' -> Dict.wf inner -> corpus_wf (Dict.set k1 inner d')).
  { intros d' inner [Hwf' Hall'] Hinner. split; [apply wf_set; exact Hwf'|].
    rewrite Forall_forall in *. intros [k' v'] Hin.
    apply In_set in Hin as [[_ ->]|Hin]; [exact Hinner | apply (Hall' _ Hin)]. }
  destruct (Dict.get k1 d) as [inner|] eqn:E.
  - apply Hstep; [split; assumption|]. apply wf_set. rewrite E.
    rewrite Forall_forall in Hall. apply (Hall _ (get_Some_In _ _ E)).
  - rewrite get_set_eq. apply Hstep.
    + apply Hstep; [split; assumption | constructor].
    + apply wf_set. constructor.
Qed.
End Dict2Facts.

Lemma corpus_wf_nil {V} : corpus_wf (@nil (str * dict V)).
Proof. split; constructor. Qed.

Lemma corpus_wf_get {V} (d : dict (dict V)) (k : str) :
  corpus_wf d -> Dict.wf (get_or_empty k d).
Proof.
  intros [_ Hall]. unfold get_or_empty.
  destruct (Dict.get k d) as [inner|] eqn:E; [|constructor].
  rewrite Forall_forall in Hall. apply (Hall _ (get_Some_In _ _ E)).
Qed.

(** ** The directive line *)

Lemma skip_literal_spec (p s r : str) :
  skip_literal p s = Some r <->
  exists l, s = l ++ r /\ Forall2 (fun x c => eq_ignorecase x c = true) p l.
Proof.
  revert s; induction p as [|x p IH]; intros s.
  - simpl. split.
    + intros H; injection H as ->. exists []. split; [reflexivity | constructor].
    + intros [l [-> H]]. inversion H. reflexivity.
  - destruct s as [|y s]; simpl.
    + split; [discriminate|]. intros [l [Hs H]]. inversion H; subst. discriminate.
    + destruct (eq_ignorecase x y) eqn:E.
      * rewrite IH. split.
        -- intros [l [-> H]]. exists (y :: l). split; [reflexivity|].
           constructor; assumption.
        -- intros [l [Hs H]]. inversion H as [|? c ? l' Hc Hl]; subst.
           injection Hs as -> ->. exists l'. split; [reflexivity | exact Hl].
      * split; [discriminate|]. intros [l [Hs H]].
        inversion H as [|? c ? l' Hc Hl]; subst. injection Hs as -> ->. congruence.
Qed.

Lemma lstrip_split (s : str) :
  exists ws, s = ws ++ lstrip s /\ Forall (fun c => isspace c = true) ws /\
             starts_with_nonspace (lstrip s).
Proof.
  induction s as [|c s [ws [Hs [Hws Hhd]]]]; simpl.
  - exists []. repeat split; [constructor | left; reflexivity].
  - destruct (isspace c) eqn:E.
    + exists (c :: ws). split; [simpl; f_equal; exact Hs|].
      split; [constructor; assumption | exact Hhd].
    + exists []. repeat split; [constructor|]. right; eauto.
Qed.

Lemma lstrip_app (ws t : str) :
  Forall (fun c => isspace c = true) ws -> starts_with_nonspace t ->
  lstrip (ws ++ t) = t.
Proof.
  intros Hws Ht. induction Hws as [|c ws Hc Hws IH]; simpl.
  - destruct Ht as [->|[c [s' [-> Hc]]]]; [reflexivity|]. simpl. rewrite Hc. reflexivity.
  - rewrite Hc. exact IH.
Qed.

Lemma nonspace_prefix_split (s : str) :
  exists rest, s = nonspace_prefix s ++ rest /\
               Forall (fun c => isspace c = false) (nonspace_prefix s) /\
               starts_with_space rest.
Proof.
  induction s as [|c s [rest [Hs [Hall Hrest]]]]; simpl.
  - exists []. repeat split; [constructor | left; reflexivity].
  - destruct (isspace c) eqn:E.
    + exists (c :: s). repeat split; [constructor|]. right; eauto.
    + exists rest. split; [simpl; f_equal; exact Hs|].
      split; [constructor; assumption | exact Hrest].
Qed.

Lemma nonspace_prefix_app (u rest : str) :
  Forall (fun c => isspace c = false) u -> starts_with_space rest ->
  nonspace_prefix (u ++ rest) = u.
Proof.
  intros Hu Hrest. induction Hu as [|c u Hc Hu IH]; simpl.
  - destruct Hrest as [->|[c [s' [-> Hc]]]]; [reflexivity|]. simpl. rewrite Hc. reflexivity.
  - rewrite Hc. f_equal. exact IH.
Qed.

(** [url_match] implements the directive pattern. *)
Lemma url_match_spec (line url : str) :
  url_match line = Some url <-> directive_matches line url.
Proof.
  unfold url_match, directive_matches. split.
  - destruct (skip_literal (lit "! url:") line) as [r|] eqn:E; [|discriminate].
    apply skip_literal_spec in E as [l [-> Hl]].
    destruct (lstrip_split r) as [ws [Hr [Hws _]]].
    destruct (nonspace_prefix_split (lstrip r)) as [rest [Ht [Hall Hrest]]].
    destruct (truthy (nonspace_prefix (lstrip r))) eqn:Htr; [|discriminate].
    intros H; injection H as <-.
    exists l, ws, rest. split; [rewrite <- Ht, <- Hr; reflexivity|].
    split; [exact Hl|]. split; [exact Hws|].
    split; [apply truthy_true; exact Htr|]. split; [exact Hall | exact Hrest].
  - intros [l [ws [rest [-> [Hl [Hws [Hne [Hall Hrest]]]]]]]].
    assert (E : skip_literal (lit "! url:") (l ++ ws ++ url ++ rest)
                = Some (ws ++ url ++ rest)).
    { apply skip_literal_spec. exists l. split; [reflexivity | exact Hl]. }
    rewrite E. rewrite lstrip_app; [| exact Hws |].
    + rewrite nonspace_prefix_app by assumption.
      apply truthy_true in Hne. rewrite Hne. reflexivity.
    + right. destruct url as [|c url]; [congruence|].
      exists c, (url ++ rest). split; [reflexivity|].
      inversion Hall; assumption.
Qed.

Lemma url_match_decided (line : str) :
  (exists url, directive_matches line url) \/ (forall url, ~ directive_matches line url).
Proof.
  destruct (url_match line) as [url|] eqn:E.
  - left. exists url. apply url_match_spec. exact E.
  - right. intros url H. apply url_match_spec in H. congruence.
Qed.

(** ** Parsing *)

Lemma set2_nil {V} (k1 k2 : str) (v : V) : set2 k1 k2 v [] = [(k1, [(k2, v)])].
Proof.
  unfold set2, get_or_empty, Dict.mem. simpl. rewrite !str_eqb_refl. reflexivity.
Qed.

Lemma process_member_entry (temp : Corpus) (member : TarMember) :
  process_member temp member =
    match entry_of member with
    | Some (category, url, content) => set2 category url content temp
    | None => temp
    end.
Proof.
  unfold entry_of, process_member.
  destruct (isfile member); [|reflexivity].
  destruct (3 <=? length (split (lit "/") (name member))); [|reflexivity].
  destruct (splitlines (text member)) as [|line0 rest]; [reflexivity|].
  destruct (url_match (strip line0)) as [url|]; [|reflexivity].
  rewrite set2_nil. reflexivity.
Qed.

Lemma entry_of_spec (member : TarMember) (line0 : str) (rest : list str) :
  isfile member = true ->
  3 <= length (split (lit "/") (name member)) ->
  splitlines (text member) = line0 :: rest ->
  entry_of member =
    match url_match (strip line0) with
    | Some url => Some (nth 2 (split (lit "/") (name member)) [], url, join [LF] rest)
    | None => None
    end.
Proof.
  intros Hfile Hparts Hlines. unfold entry_of, process_member.
  rewrite Hfile, Hlines. apply Nat.leb_le in Hparts. rewrite Hparts.
  destruct (url_match (strip line0)) as [url|]; [|reflexivity].
  rewrite set2_nil. reflexivity.
Qed.

Lemma parse_members_wf (members : list TarMember) : corpus_wf (parse_members members).
Proof.
  unfold parse_members.
  assert (H : forall temp, corpus_wf temp -> corpus_wf (fold_left process_member members temp)).
  { induction members as [|m members IH]; intros temp Hwf; simpl; [exact Hwf|].
    apply IH. rewrite process_member_entry.
    destruct (entry_of m) as [[[c u] t]|]; [apply corpus_wf_set2|]; exact Hwf. }
  apply H. apply corpus_wf_nil.
Qed.

(** A key of the corpus under construction stays in it, and its content at
    the end is the one it had or the one a later member has given it. *)
Lemma fold_process_member_keeps (members : list TarMember) :
  forall (temp : Corpus) (category url content : str),
    get2 category url temp = Some content ->
    exists content',
      get2 category url (fold_left process_member members temp) = Some content' /\
      (content' = content \/
       exists m, In m members /\ entry_of m = Some (category, url, content')).
Proof.
  induction members as [|m members IH]; intros temp c u t Hget; simpl.
  - exists t. auto.
  - rewrite process_member_entry.
    destruct (entry_of m) as [[[c' u'] t']|] eqn:E.
    + destruct (list_eq_dec str_eq_dec [c'; u'] [c; u]) as [Heq|Hne].
      * injection Heq as -> ->.
        destruct (IH (set2 c u t' temp) c u t' (get2_set2_eq _ _ _ _))
          as [t'' [H1 H2]].
        exists t''. split; [exact H1|]. right.
        destruct H2 as [Heq|[m' [Hin Hm']]]; [subst t''; exists m; auto | exists m'; auto].
      * destruct (IH (set2 c' u' t' temp) c u t) as [t'' [H1 H2]].
        { rewrite get2_set2_ne; [exact Hget | congruence]. }
        exists t''. split; [exact H1|].
        destruct H2 as [->|[m' [Hin Hm']]]; [auto|]. right. exists m'. auto.
    + destruct (IH temp c u t Hget) as [t'' [H1 H2]].
      exists t''. split; [exact H1|].
      destruct H2 as [->|[m' [Hin Hm']]]; [auto|]. right. exists m'. auto.
Qed.

Lemma fold_process_member_retains (members : list TarMember) :
  forall (temp : Corpus) (m : TarMember) (category url content : str),
    In m members -> entry_of m = Some (category, url, content) ->
    exists content',
      get2 category url (fold_left process_member members temp) = Some content' /\
      exists m', In m' members /\ entry_of m' = Some (category, url, content').
Proof.
  induction members as [|m0 members IH]; intros temp m c u t Hin Hm; [destruct Hin|].
  simpl. destruct Hin as [->|Hin].
  - rewrite process_member_entry, Hm.
    destruct (@fold_process_member_keeps members (set2 c u t temp) c u t
                (get2_set2_eq _ _ _ _)) as [t' [H1 H2]].
    exists t'. split; [exact H1|].
    destruct H2 as [->|[m' [Hin' Hm']]]; [exists m; auto | exists m'; auto].
  - destruct (IH (process_member temp m0) m c u t Hin Hm) as [t' [H1 [m' [Hin' Hm']]]].
    exists t'. split; [exact H1|]. exists m'. auto.
Qed.

(** C2 (counterexample).  A member filed under the tag [extra], which is
    neither [content] nor [dns], is in the parsed corpus under that tag. *)
Lemma C2_unrecognized_category_is_retained :
  let member :=
    {| name := lit "./tmp/extra/b.txt"; isfile := true;
       text := lit "! url: http://x/b" ++ [LF] ++ lit "rule" |} in
  let category := nth 2 (split (lit "/") (name member)) [] in
  category = lit "extra" /\
  ~ In category [lit "content"; lit "dns"] /\
  get2 category (lit "http://x/b") (parse_members [member]) = Some (lit "rule").
Proof.
  vm_compute. split; [reflexivity|]. split; [|reflexivity].
  intros [H|[H|[]]]; discriminate.
Qed.

(** C2 (amended).  Parsing keeps a file entry whatever its category tag:
    a regular file with at least three path segments whose stripped first
    line carries the directive is in the corpus under its third path
    segment and its URL, with the content of an entry of that tag and URL. *)
Theorem C2_entry_kept_under_its_own_tag
    (members : list TarMember) (m : TarMember) (line0 : str) (rest : list str)
    (url : str) :
  In m members ->
  isfile m = true ->
  3 <= length (split (lit "/") (name m)) ->
  splitlines (text m) = line0 :: rest ->
  directive_matches (strip line0) url ->
  let category := nth 2 (split (lit "/") (name m)) [] in
  exists content,
    get2 category url (parse_members members) = Some content /\
    exists m', In m' members /\ entry_of m' = Some (category, url, content).
Proof.
  intros Hin Hfile Hparts Hlines Hmatch category.
  apply (@fold_process_member_retains members [] m category url (join [LF] rest) Hin).
  rewrite (entry_of_spec m Hfile Hparts Hlines).
  apply url_match_spec in Hmatch. rewrite Hmatch. reflexivity.
Qed.

(** C3 (counterexample).  A first line [!url: ...] matches the pattern
    [^!\s*url:\s*(\S+)], yet the file is not taken into the corpus; a first
    line with leading blanks does not match that pattern, yet the file is
    taken. *)
Lemma C3_directive_pattern_differs :
  let skipped :=
    {| name := lit "./tmp/dns/c.txt"; isfile := true;
       text := lit "!url: http://x/c" ++ [LF] ++ lit "rule" |} in
  let taken :=
    {| name := lit "./tmp/dns/d.txt"; isfile := true;
       text := lit "  ! url: http://x/d" ++ [LF] ++ lit "rule" |} in
  (isfile skipped = true /\
   3 <= length (split (lit "/") (name skipped)) /\
   splitlines (text skipped) = [lit "!url: http://x/c"; lit "rule"] /\
   spec_url_match (lit "!url: http://x/c") = Some (lit "http://x/c") /\
   parse_members [skipped] = []) /\
  (isfile taken = true /\
   3 <= length (split (lit "/") (name taken)) /\
   splitlines (text taken) = [lit "  ! url: http://x/d"; lit "rule"] /\
   spec_url_match (lit "  ! url: http://x/d") = None /\
   get2 (lit "dns") (lit "http://x/d") (parse_members [taken]) = Some (lit "rule")).
Proof.
  vm_compute. repeat split; lia.
Qed.

(** C3 (amended).  For a regular file with at least three path segments
    and at least one line, the entry is taken into the corpus exactly when
    its first line, stripped of surrounding white space, matches
    [^! url:\s*(\S+)] ignoring case (one blank between [!] and [url:]).
    When it matches, the captured token is the URL key under the file's
    category and the remaining lines joined by newline are the content;
    when it does not, the corpus under construction is left as it is and
    parsing goes on. *)
Theorem C3_entry_included_iff_directive
    (temp : Corpus) (m : TarMember) (line0 : str) (rest : list str) :
  isfile m = true ->
  3 <= length (split (lit "/") (name m)) ->
  splitlines (text m) = line0 :: rest ->
  let category := nth 2 (split (lit "/") (name m)) [] in
  ((exists url, directive_matches (strip line0) url) \/
   (forall url, ~ directive_matches (strip line0) url)) /\
  (forall url, directive_matches (strip line0) url ->
     process_member temp m = set2 category url (join [LF] rest) temp /\
     get2 category url (process_member temp m) = Some (join [LF] rest)) /\
  ((forall url, ~ directive_matches (strip line0) url) ->
     process_member temp m = temp).
Proof.
  intros Hfile Hparts Hlines category.
  split; [apply url_match_decided|].
  rewrite process_member_entry, (entry_of_spec m Hfile Hparts Hlines).
  split.
  - intros url Hmatch. apply url_match_spec in Hmatch. rewrite Hmatch.
    split; [reflexivity | apply get2_set2_eq].
  - intros Hno. destruct (url_match (strip line0)) as [url|] eqn:E; [|reflexivity].
    apply url_match_spec in E. destruct (Hno url E).
Qed.

(** ** Searching *)

Lemma collect_matching_lines_filter (matches : str -> bool) (lines : list str) :
  collect_matching_lines matches lines =
    map (fun item => (fst item, strip (snd item)))
        (filter (fun item => matches (snd item)) (enumerate 1 lines)).
Proof.
  unfold collect_matching_lines.
  assert (H : forall (items : list (nat * str)) acc,
             fold_left
               (fun matching_lines item =>
                  if matches (snd item)
                  then matching_lines ++ [(fst item, strip (snd item))]
                  else matching_lines) items acc =
             acc ++ map (fun item => (fst item, strip (snd item)))
                        (filter (fun item => matches (snd item)) items)).
  { induction items as [|item items IH]; intros acc; simpl.
    - rewrite app_nil_r. reflexivity.
    - rewrite IH. destruct (matches (snd item)); [|reflexivity].
      simpl. rewrite <- app_assoc. reflexivity. }
  apply (H _ []).
Qed.

Lemma enumerate_In {A} (l : list A) :
  forall start n x,
    In (n, x) (enumerate start l) <-> start <= n /\ nth_error l (n - start) = Some x.
Proof.
  induction l as [|a l IH]; intros start n x; simpl.
  - split; [intros [] | intros [_ H]]. destruct (n - start); discriminate.
  - rewrite IH. split.
    + intros [H | [Hle Hnth]].
      * injection H as <- <-. rewrite Nat.sub_diag. auto.
      * split; [lia|]. replace (n - start) with (S (n - S start)) by lia. exact Hnth.
    + intros [Hle Hnth]. destruct (n - start) as [|i] eqn:E.
      * left. injection Hnth as <-. f_equal. lia.
      * right. split; [lia|]. replace (n - S start) with i by lia. exact Hnth.
Qed.

Lemma enumerate_sorted {A} (l : list A) :
  forall start, StronglySorted lt (map fst (enumerate start l)).
Proof.
  induction l as [|a l IH]; intros start; simpl; constructor; [apply IH|].
  rewrite Forall_forall. intros n Hn. apply in_map_iff in Hn as [[n' x] [<- Hin]].
  apply enumerate_In in Hin. simpl. lia.
Qed.

(** The lines collected for one content are the matching lines. *)
Lemma hits_of_is_match_list (matches : str -> bool) (hit : str -> Prop) (content : str) :
  (forall line, matches line = true <-> hit line) ->
  is_match_list hit content (hits_of matches content).
Proof.
  intros Hiff. unfold is_match_list, hits_of.
  rewrite collect_matching_lines_filter. split.
  - intros n t. rewrite in_map_iff. split.
    + intros [[n' line] [Heq Hin]]. simpl in Heq. injection Heq as -> <-.
      apply filter_In in Hin as [Hin Hm]. apply enumerate_In in Hin as [Hle Hnth].
      exists line. simpl in Hm. rewrite <- Hiff. auto.
    + intros [line [Hle [Hnth [Hhit ->]]]]. exists (n, line). split; [reflexivity|].
      apply filter_In. split; [apply enumerate_In; auto | apply Hiff; exact Hhit].
  - rewrite map_map. simpl.
    apply (@StronglySorted_map_filter _ _ lt fst). apply enumerate_sorted.
Qed.

Lemma scan_item_eq (matches : str -> bool) (cat : str) (found : SearchResult)
    (url content : str) :
  scan_item matches cat found (url, content) =
    match hits_of matches content with
    | [] => found
    | _ :: _ => set2 cat url (hits_of matches content) found
    end.
Proof.
  unfold scan_item, hits_of. destruct content as [|c content]; reflexivity.
Qed.

Lemma get2_scan_item (matches : str -> bool) (cat : str) (found : SearchResult)
    (url content c u : str) :
  get2 c u (scan_item matches cat found (url, content)) =
    lookup_hit matches
      (if str_eqb c cat && str_eqb u url then Some content else None)
      (get2 c u found).
Proof.
  rewrite scan_item_eq. unfold lookup_hit.
  destruct (str_eqb c cat) eqn:Ec; [destruct (str_eqb u url) eqn:Eu|]; simpl.
  - apply str_eqb_eq in Ec, Eu. subst.
    destruct (hits_of matches content); [reflexivity | apply get2_set2_eq].
  - destruct (hits_of matches content); [reflexivity|].
    apply get2_set2_ne. intros H; injection H as _ ->.
    rewrite str_eqb_refl in Eu. discriminate.
  - destruct (hits_of matches content); [reflexivity|].
    apply get2_set2_ne. intros H; injection H as -> _.
    rewrite str_eqb_refl in Ec. discriminate.
Qed.

Lemma lookup_hit_idem (matches : str -> bool) (source : option str) before :
  lookup_hit matches source (lookup_hit matches source before) =
  lookup_hit matches source before.
Proof.
  unfold lookup_hit. destruct source as [content|]; [|reflexivity].
  destruct (hits_of matches content); reflexivity.
Qed.

(** The loop over the items of one category. *)
Lemma get2_scan_items (matches : str -> bool) (cat : str) (d : dict str) :
  Dict.wf d ->
  forall (found : SearchResult) (c u : str),
    get2 c u (fold_left (scan_item matches cat) d found) =
      lookup_hit matches
        (if str_eqb c cat then Dict.get u d else None)
        (get2 c u found).
Proof.
  induction d as [|[url content] d IH]; intros Hwf found c u.
  - simpl. destruct (str_eqb c cat); reflexivity.
  - unfold Dict.wf in Hwf. simpl in Hwf. apply NoDup_cons_iff in Hwf as [Hnotin Hwf].
    cbn [fold_left]. rewrite (IH Hwf), get2_scan_item. cbn [Dict.get].
    destruct (str_eqb c cat); [|reflexivity]. cbn [andb].
    rewrite (str_eqb_sym u url).
    destruct (str_eqb url u) eqn:Eu; [|reflexivity].
    apply str_eqb_eq in Eu. subst u.
    apply get_None_keys in Hnotin. rewrite Hnotin. reflexivity.
Qed.

Lemma get2_get_or_empty {V} (d : dict (dict V)) (k1 k2 : str) :
  Dict.get k2 (get_or_empty k1 d) = get2 k1 k2 d.
Proof. unfold get2, get_or_empty. destruct (Dict.get k1 d); reflexivity. Qed.

(** The loop over the categories to search. *)
Lemma get2_scan_categories (matches : str -> bool) (corpus : Corpus) :
  corpus_wf corpus ->
  forall (cats : list str) (found : SearchResult) (c u : str),
    get2 c u
      (fold_left
         (fun found_results cat =>
            fold_left (scan_item matches cat) (get_or_empty cat corpus) found_results)
         cats found) =
      lookup_hit matches
        (if existsb (str_eqb c) cats then get2 c u corpus else None)
        (get2 c u found).
Proof.
  intros Hwf. induction cats as [|cat cats IH]; intros found c u; [reflexivity|].
  cbn [fold_left existsb]. rewrite IH.
  rewrite (get2_scan_items matches cat (corpus_wf_get cat Hwf)).
  destruct (str_eqb c cat) eqn:Ec; cbn [orb].
  - apply str_eqb_eq in Ec. subst cat. rewrite get2_get_or_empty.
    destruct (existsb (str_eqb c) cats); [apply lookup_hit_idem | reflexivity].
  - reflexivity.
Qed.



Section Search.
Context {rt : Runtime}.


(** What the scan has found at a category and URL. *)
Lemma get2_scan (matches : str -> bool) (category : str) (corpus : Corpus)
    (cat url : str) :
  corpus_wf corpus ->
  get2 cat url (scan matches category corpus) =
    lookup_hit matches
      (if existsb (str_eqb cat) (categories_to_search category)
       then get2 cat url corpus else None)
      None.
Proof.
  intros Hwf. unfold scan. rewrite (get2_scan_categories matches Hwf). reflexivity.
Qed.


End Search.

(** * Closed examples *)

(** C2 (witness): the member filed under [extra] in [example_members]. *)
Lemma C2_entry_kept_witness :
  let m := {| name := lit "./tmp/extra/b.txt"; isfile := true;
              text := lit "! URL:   http://x/b" ++ [LF] ++ lit "rule" |} in
  (In m example_members /\
   isfile m = true /\
   3 <= length (split (lit "/") (name m)) /\
   splitlines (text m) = [lit "! URL:   http://x/b"; lit "rule"] /\
   directive_matches (strip (lit "! URL:   http://x/b")) (lit "http://x/b")) /\
  exists content,
    get2 (lit "extra") (lit "http://x/b") (parse_members example_members) = Some content /\
    exists m', In m' example_members /\
               entry_of m' = Some (lit "extra", lit "http://x/b", content).
Proof.
  intros m.
  assert (H1 : In m example_members) by (right; left; reflexivity).
  assert (H2 : isfile m = true) by reflexivity.
  assert (H3 : 3 <= length (split (lit "/") (name m))) by (vm_compute; lia).
  assert (H4 : splitlines (text m) = [lit "! URL:   http://x/b"; lit "rule"])
    by (vm_compute; reflexivity).
  assert (H5 : directive_matches (strip (lit "! URL:   http://x/b")) (lit "http://x/b"))
    by (apply url_match_spec; vm_compute; reflexivity).
  split; [repeat split; assumption|].
  exact (@C2_entry_kept_under_its_own_tag example_members m _ _ _ H1 H2 H3 H4 H5).
Defined.

(** C3 (witness): the first member of [example_members] is taken into an
    empty corpus under [dns] and its URL. *)
Lemma C3_entry_included_witness :
  let m := {| name := lit "./tmp/dns/a.txt"; isfile := true;
              text := lit "! url: http://x/a" ++ [LF] ++ lit "||Ads.example^" ++ [LF] ++
                      lit "plain" ++ [LF] ++ lit "  @@ads  " |} in
  let rest := [lit "||Ads.example^"; lit "plain"; lit "  @@ads  "] in
  (isfile m = true /\
   3 <= length (split (lit "/") (name m)) /\
   splitlines (text m) = lit "! url: http://x/a" :: rest /\
   directive_matches (strip (lit "! url: http://x/a")) (lit "http://x/a")) /\
  process_member [] m = set2 (lit "dns") (lit "http://x/a") (join [LF] rest) [] /\
  get2 (lit "dns") (lit "http://x/a") (process_member [] m) = Some (join [LF] rest).
Proof.
  intros m rest.
  assert (H1 : isfile m = true) by reflexivity.
  assert (H2 : 3 <= length (split (lit "/") (name m))) by (vm_compute; lia).
  assert (H3 : splitlines (text m) = lit "! url: http://x/a" :: rest)
    by (vm_compute; reflexivity).
  assert (H4 : directive_matches (strip (lit "! url: http://x/a")) (lit "http://x/a"))
    by (apply url_match_spec; vm_compute; reflexivity).
  split; [repeat split; assumption|].
  exact (proj1 (proj2 (@C3_entry_included_iff_directive [] m _ _ H1 H2 H3)) _ H4).
Defined.


Lemma example_world_fails (k : nat) (data : bytes) (n : nat) :
  n < k -> fails_at (example_world k data) n.
Proof.
  intros Hn. exists ClientError. unfold example_world, start_cycle, failing_then.
  simpl. rewrite (proj2 (Nat.ltb_lt n k) Hn). reflexivity.
Defined.

(** C5 (witness): four failures, then the body [x1f]. *)
Lemma C5_download_archive_witness :
  let w := example_world 4 [Byte.x1f] in
  (forall n, n < 4 -> fails_at w n) /\
  download_archive (lit "http://x/archive.tar.gz") w =
    (Return [Byte.x1f], after_attempts w 5 4).
Proof.
  intros w.
  assert (H : forall n, n < 4 -> fails_at w n)
    by (intros n Hn; apply example_world_fails; exact Hn).
  split; [exact H|].
  exact (proj1 (@C5_download_archive_four_waits (lit "http://x/archive.tar.gz") w H)
           [Byte.x1f] eq_refl).
Defined.

(** C6 (witness): a body that does not open as an archive, published
    nowhere. *)
Lemma C6_failed_refresh_witness :
  let url := lit "http://x/archive.tar.gz" in
  let w := example_world 0 [Byte.x00] in
  (@fetch_fails w \/ @read_fails example_runtime url w) /\
  exists e w',
    @download_and_parse_archive example_runtime url w = (Raise e, w') /\
    url_contents (globals w') = url_contents (globals w) /\
    initial_load_time (globals w') = initial_load_time (globals w) /\
    last_update_time (globals w') = last_update_time (globals w).
Proof.
  intros url w.
  assert (H : fetch_fails w \/ @read_fails example_runtime url w).
  { right. exists [Byte.x00], (after_attempts w 1 0), (TarError (lit "not a gzip file")).
    split; vm_compute; reflexivity. }
  split; [exact H|].
  exact (@C6_failed_refresh_publishes_nothing example_runtime url w H).
Defined.

(** C7 (witness): the pattern [a{4294967296}]. *)
Lemma C7_compile_exception_witness :
  let w := example_world 0 [Byte.x1f] in
  let e := OtherError (lit "OverflowError: the repetition number is too large") in
  (lit "a{4294967296}" <> [] /\
   @re_compile example_runtime (lit "a{4294967296}") = CompileRaised e) /\
  @regex_search_pattern example_runtime true (lit "all") (lit "a{4294967296}") w =
    (Raise e, w).
Proof.
  intros w e.
  assert (H1 : lit "a{4294967296}" <> []) by (vm_compute; discriminate).
  assert (H2 : @re_compile example_runtime (lit "a{4294967296}") = CompileRaised e)
    by (vm_compute; reflexivity).
  split; [split; assumption|].
  exact (@C7_compile_exception_escapes_unreported example_runtime true (lit "all")
           (lit "a{4294967296}") e w H1 H2).
Defined.



(** C9 (witness): two failures, then an empty body. *)
Lemma C9_empty_download_witness :
  let url := lit "http://x/archive.tar.gz" in
  let w := example_world 2 [] in
  (2 < MAX_RETRIES /\ (forall n, n < 2 -> fails_at w n) /\
   net w (requests w + 2) = inr []) /\
  @download_and_parse_archive example_runtime url w =
    (Raise DownloadEmpty, after_attempts w 3 2) /\
  globals (after_attempts w 3 2) = globals w.
Proof.
  intros url w.
  assert (H1 : 2 < MAX_RETRIES) by (unfold MAX_RETRIES; lia).
  assert (H2 : forall n, n < 2 -> fails_at w n)
    by (intros n Hn; apply example_world_fails; exact Hn).
  assert (H3 : net w (requests w + 2) = inr []) by reflexivity.
  split; [repeat split; assumption|].
  exact (@C9_empty_download_is_a_failure example_runtime url w 2 H1 H2 H3).
Defined.

(** * Further properties *)

(** ** Splitting and joining *)

Lemma join_cons2 (sep p q : str) (r : list str) :
  join sep (p :: q :: r) = p ++ sep ++ join sep (q :: r).
Proof. reflexivity. Qed.

Lemma join_cons_nonnil (sep p : str) (r : list str) :
  r <> [] -> join sep (p :: r) = p ++ sep ++ join sep r.
Proof. destruct r as [|q r]; [congruence | reflexivity]. Qed.

(** A chunk that is two pieces joined by the separator joins like the two
    pieces. *)
Lemma join_merge (sep a b : str) (l r : list str) :
  join sep (l ++ (a ++ sep ++ b) :: r) = join sep (l ++ a :: b :: r).
Proof.
  induction l as [|x l IH].
  - simpl app. rewrite join_cons2. destruct r as [|c r].
    + reflexivity.
    + rewrite !join_cons2. rewrite <- !app_assoc. reflexivity.
  - assert (Hne : forall y t, l ++ y :: t <> []) by (intros y t; destruct l; discriminate).
    simpl app. rewrite !join_cons_nonnil by apply Hne. rewrite IH. reflexivity.
Qed.

Lemma split_go_skip (sep t : str) :
  forall cur s, split_go sep (length t) cur (t ++ s) = split_go sep 0 cur s.
Proof.
  induction t as [|c t IH]; intros cur s; [reflexivity|].
  simpl. apply IH.
Qed.

Lemma split_go_nonnil (sep : str) (s : str) :
  forall skip cur, split_go sep skip cur s <> [].
Proof.
  induction s as [|c s IH]; intros skip cur; simpl; [discriminate|].
  destruct skip; [|apply IH].
  destruct (startswith sep (c :: s)); [discriminate | apply IH].
Qed.

Lemma join_split_go (sep : str) :
  sep <> [] ->
  forall n s cur, length s <= n -> join sep (split_go sep 0 cur s) = cur ++ s.
Proof.
  intros Hsep. induction n as [|n IH]; intros s cur Hlen.
  - destruct s; [simpl; rewrite app_nil_r; reflexivity | simpl in Hlen; lia].
  - destruct s as [|c s]; [simpl; rewrite app_nil_r; reflexivity|].
    cbn [split_go]. destruct (startswith sep (c :: s)) eqn:E.
    + apply startswith_spec in E as [t Ht].
      destruct sep as [|x sep']; [congruence|].
      simpl in Ht. injection Ht as -> ->.
      cbn [length]. rewrite Nat.sub_1_r. cbn [Nat.pred].
      rewrite split_go_skip.
      rewrite join_cons_nonnil by apply split_go_nonnil.
      rewrite IH; [reflexivity|].
      simpl in Hlen. rewrite length_app in Hlen. lia.
    + rewrite IH by (simpl in Hlen; lia).
      rewrite <- app_assoc. reflexivity.
Qed.

(** Joining the pieces of [s.split(sep)] with [sep] gives [s] back. *)
Lemma join_split (sep s : str) : sep <> [] -> join sep (split sep s) = s.
Proof.
  intros Hsep. unfold split.
  apply (join_split_go Hsep (n := length s)). lia.
Qed.

(** ** Pagination, continued *)

(** X1.  A chunk of [split_message] is at most [MAX_MESSAGE_LENGTH] code
    points long, unless it is one paragraph of the message that is longer
    than that by itself. *)
Theorem X1_split_message_chunk_length (message chunk : str) :
  In chunk (split_message message) ->
  len chunk <= MAX_MESSAGE_LENGTH \/
  (In chunk (split [LF; LF] message) /\ MAX_MESSAGE_LENGTH < len chunk).
Proof.
  set (all := split [LF; LF] message).
  set (ok := fun c : str =>
               len c <= MAX_MESSAGE_LENGTH \/
               (In c all /\ MAX_MESSAGE_LENGTH < len c)).
  assert (Hpart : forall p, In p all -> ok p).
  { intros p Hp. unfold ok. destruct (Nat.le_gt_cases (len p) MAX_MESSAGE_LENGTH); auto. }
  assert (Hloop : forall parts messages cur,
             incl parts all -> Forall ok messages -> ok cur ->
             Forall ok (fst (split_message_loop parts messages cur)) /\
             ok (snd (split_message_loop parts messages cur))).
  { induction parts as [|part parts IH]; intros messages cur Hincl Hm Hc;
      cbn [split_message_loop]; [split; assumption|].
    assert (Hp : ok part) by (apply Hpart, Hincl; left; reflexivity).
    assert (Hincl' : incl parts all) by (intros x Hx; apply Hincl; right; exact Hx).
    destruct (Nat.ltb_spec MAX_MESSAGE_LENGTH (len cur + len part + 2)) as [Hover|Hfit].
    - destruct (truthy cur); [|apply IH; assumption].
      assert (Hm' : Forall ok (messages ++ [cur])).
      { apply Forall_app; split; [exact Hm | constructor; [exact Hc | constructor]]. }
      destruct (MAX_MESSAGES <=? length (messages ++ [cur])); [|apply IH; assumption].
      cbn [fst snd]. split; [|exact Hc].
      apply Forall_app; split; [exact Hm'|]. constructor; [|constructor].
      left. apply Nat.leb_le. reflexivity.
    - destruct (truthy cur); apply IH; try assumption.
      left. unfold len in *. rewrite !length_app. simpl. lia. }
  unfold split_message. fold all.
  destruct (Hloop all [] [] (incl_refl _) (Forall_nil _)) as [Hms Hcur].
  { left. unfold len. simpl. lia. }
  destruct (split_message_loop all [] []) as [messages cur]. cbn [fst snd] in *.
  intros Hin. rewrite Forall_forall in Hms.
  destruct (truthy cur && (length messages <? MAX_MESSAGES)); [|apply Hms; exact Hin].
  apply in_app_or in Hin as [Hin | [<- | []]]; [apply Hms; exact Hin | exact Hcur].
Qed.

Lemma split_message_loop_lossless (parts : list str) :
  forall messages cur,
    Forall (fun p => p <> []) parts ->
    length messages < MAX_MESSAGES ->
    let r := split_message_loop parts messages cur in
    (length (fst r) < MAX_MESSAGES /\
     join [LF; LF] (fst r ++ if truthy (snd r) then [snd r] else []) =
     join [LF; LF] (messages ++ (if truthy cur then [cur] else []) ++ parts)) \/
    (length (fst r) = S MAX_MESSAGES /\ last (fst r) [] = TRUNCATION_NOTICE).
Proof.
  induction parts as [|part parts IH]; intros messages cur Hne Hlen;
    cbn [split_message_loop].
  - left. cbn [fst snd]. rewrite app_nil_r. auto.
  - apply Forall_cons_iff in Hne as [Hpart Hne].
    apply truthy_true in Hpart.
    destruct (MAX_MESSAGE_LENGTH <? len cur + len part + 2).
    + destruct (truthy cur) eqn:Hc.
      * destruct (MAX_MESSAGES <=? length (messages ++ [cur])) eqn:E.
        -- right. cbn [fst]. apply Nat.leb_le in E.
           rewrite !length_app in *. cbn [length] in *.
           split; [unfold MAX_MESSAGES in *; lia | apply last_last].
        -- apply Nat.leb_gt in E.
           destruct (IH (messages ++ [cur]) part Hne E) as [[H1 H2]|H]; [left | right; exact H].
           split; [exact H1|]. rewrite H2, Hpart. rewrite <- app_assoc. reflexivity.
      * destruct (IH messages part Hne Hlen) as [[H1 H2]|H]; [left | right; exact H].
        split; [exact H1|]. rewrite H2, Hpart. reflexivity.
    + destruct (truthy cur) eqn:Hc.
      * destruct (IH messages (cur ++ [LF; LF] ++ part) Hne Hlen) as [[H1 H2]|H];
          [left | right; exact H].
        split; [exact H1|]. rewrite H2.
        assert (Ht : truthy (cur ++ [LF; LF] ++ part) = true)
          by (destruct cur; [discriminate | reflexivity]).
        rewrite Ht. apply join_merge.
      * destruct (IH messages part Hne Hlen) as [[H1 H2]|H]; [left | right; exact H].
        split; [exact H1|]. rewrite H2, Hpart. reflexivity.
Qed.

(** X2.  When no paragraph of the message is empty, pagination loses
    nothing without saying so: either the chunks joined by blank lines are
    the message, or the result is [MAX_MESSAGES] chunks followed by the
    truncation notice. *)
Theorem X2_split_message_lossless_or_flagged (message : str) :
  Forall (fun p => p <> []) (split [LF; LF] message) ->
  join [LF; LF] (split_message message) = message \/
  (length (split_message message) = S MAX_MESSAGES /\
   last (split_message message) [] = TRUNCATION_NOTICE).
Proof.
  intros Hne. unfold split_message.
  assert (H0 : @length str [] < MAX_MESSAGES) by (unfold MAX_MESSAGES; simpl; lia).
  pose proof (@split_message_loop_lossless (split [LF; LF] message) [] [] Hne H0) as H.
  destruct (split_message_loop (split [LF; LF] message) [] []) as [messages cur].
  cbn [fst snd] in H. destruct H as [[H1 H2]|[H1 H2]].
  - left. rewrite (proj2 (Nat.ltb_lt _ _) H1), andb_true_r.
    destruct (truthy cur).
    + rewrite H2. simpl. apply join_split. discriminate.
    + rewrite app_nil_r in H2. rewrite H2. simpl. apply join_split. discriminate.
  - right. rewrite (proj2 (Nat.ltb_ge _ _)) by lia. rewrite andb_false_r. auto.
Qed.

Lemma len_join_head (sep p : str) (r : list str) : len p <= len (join sep (p :: r)).
Proof.
  destruct r as [|q r]; [simpl; lia|].
  rewrite join_cons2. unfold len. rewrite length_app. lia.
Qed.

Lemma split_message_loop_fits (parts : list str) :
  forall messages cur,
    Forall (fun p => p <> []) parts ->
    truthy cur = true ->
    len (join [LF; LF] (cur :: parts)) <= MAX_MESSAGE_LENGTH ->
    split_message_loop parts messages cur = (messages, join [LF; LF] (cur :: parts)).
Proof.
  induction parts as [|part parts IH]; intros messages cur Hne Hc Hlen;
    cbn [split_message_loop]; [reflexivity|].
  apply Forall_cons_iff in Hne as [Hpart Hne].
  pose proof (len_join_head [LF; LF] part parts) as Hhead.
  rewrite join_cons2 in Hlen. unfold len in *. rewrite !length_app in Hlen.
  cbn [length] in Hlen.
  rewrite (proj2 (Nat.ltb_ge _ _)) by lia. rewrite Hc.
  assert (Hmerge : join [LF; LF] ((cur ++ [LF; LF] ++ part) :: parts) =
                   join [LF; LF] (cur :: part :: parts))
    by apply (@join_merge [LF; LF] cur part [] parts).
  rewrite IH; [| exact Hne | destruct cur; [discriminate | reflexivity] |].
  - f_equal. exact Hmerge.
  - eapply Nat.le_trans; [apply Nat.eq_le_incl; exact (f_equal (@length char) Hmerge)|].
    rewrite join_cons2, !length_app. cbn [length]. lia.
Qed.

(** X3.  A message without empty paragraphs that is at least two code
    points shorter than [MAX_MESSAGE_LENGTH] is returned unchanged as the
    only chunk. *)
Theorem X3_split_message_short_message_unchanged (message : str) :
  Forall (fun p => p <> []) (split [LF; LF] message) ->
  len message + 2 <= MAX_MESSAGE_LENGTH ->
  split_message message = [message].
Proof.
  intros Hne Hlen. unfold split_message.
  pose proof (@join_split [LF; LF] message ltac:(discriminate)) as Hjoin.
  destruct (split [LF; LF] message) as [|p0 rest] eqn:Es.
  { exfalso. apply (@split_go_nonnil [LF; LF] message 0 []). exact Es. }
  apply Forall_cons_iff in Hne as [Hp0 Hne]. apply truthy_true in Hp0.
  pose proof (len_join_head [LF; LF] p0 rest) as Hhead. rewrite Hjoin in Hhead.
  cbn [split_message_loop].
  change (len []) with 0. rewrite (proj2 (Nat.ltb_ge _ _)) by lia.
  cbn [truthy].
  rewrite split_message_loop_fits; [| exact Hne | exact Hp0 | rewrite Hjoin; lia].
  rewrite Hjoin.
  assert (Hm : truthy message = true).
  { rewrite <- Hjoin. destruct p0; [discriminate|].
    destruct rest; reflexivity. }
  rewrite Hm. reflexivity.
Qed.

(** X2 (witness): two paragraphs. *)
Lemma X2_split_message_lossless_witness :
  let message := lit "first" ++ [LF; LF] ++ lit "second" in
  Forall (fun p => p <> []) (split [LF; LF] message) /\
  (join [LF; LF] (split_message message) = message \/
   (length (split_message message) = S MAX_MESSAGES /\
    last (split_message message) [] = TRUNCATION_NOTICE)).
Proof.
  intros message.
  assert (H : Forall (fun p => p <> []) (split [LF; LF] message))
    by (vm_compute; repeat constructor; discriminate).
  split; [exact H|].
  exact (@X2_split_message_lossless_or_flagged message H).
Defined.

(** X3 (witness): a two-paragraph message of 13 code points. *)
Lemma X3_split_message_short_witness :
  let message := lit "first" ++ [LF; LF] ++ lit "second" in
  (Forall (fun p => p <> []) (split [LF; LF] message) /\
   len message + 2 <= MAX_MESSAGE_LENGTH) /\
  split_message message = [message].
Proof.
  intros message.
  assert (H1 : Forall (fun p => p <> []) (split [LF; LF] message))
    by (vm_compute; repeat constructor; discriminate).
  assert (H2 : len message + 2 <= MAX_MESSAGE_LENGTH)
    by (apply Nat.leb_le; vm_compute; reflexivity).
  split; [split; assumption|].
  exact (@X3_split_message_short_message_unchanged message H1 H2).
Defined.

(** ** Fetching, continued *)

(** Among the first [b] answers of a network, either there is a first
    successful one or all fail. *)
Lemma first_success (f : nat -> exn + bytes) (b : nat) :
  (exists k data,
      k < b /\ (forall n, n < k -> exists e, f n = inl e) /\ f k = inr data) \/
  (forall n, n < b -> exists e, f n = inl e).
Proof.
  induction b as [|b [[k [data [Hk [Hfail Hok]]]] | Hall]].
  - right. intros n Hn. lia.
  - left. exists k, data. repeat split; auto.
  - destruct (f b) as [e|data] eqn:E.
    + right. intros n Hn. destruct (Nat.eq_dec n b) as [->|Hne]; [eauto | apply Hall; lia].
    + left. exists b, data. repeat split; auto.
Qed.

(** X4.  Whatever the network answers, [download_archive] returns the body
    of the first successful GET among the first [MAX_RETRIES], after as
    many waits as GETs failed before it; when all [MAX_RETRIES] fail it
    raises the terminal error after [MAX_RETRIES - 1] waits.  The
    [return b""] after the loop is never reached. *)
Theorem X4_download_archive_first_success (url : str) (w : World) :
  (exists k data,
      k < MAX_RETRIES /\
      (forall n, n < k -> fails_at w n) /\
      net w (requests w + k) = inr data /\
      download_archive url w = (Return data, after_attempts w (S k) k)) \/
  ((forall n, n < MAX_RETRIES -> fails_at w n) /\
   download_archive url w =
     (Raise (DownloadGaveUp url), after_attempts w MAX_RETRIES (MAX_RETRIES - 1))).
Proof.
  destruct (first_success (fun n => net w (requests w + n)) MAX_RETRIES)
    as [[k [data [Hk [Hfail Hok]]]] | Hall].
  - left. exists k, data. repeat split; auto.
    apply download_loop_success; auto; lia.
  - right. split; [exact Hall|].
    apply (@download_loop_give_up 4); unfold MAX_RETRIES in *; auto.
    intros n Hn. apply Hall. lia.
Qed.

Section RefreshSuccess.
Context {rt : Runtime}.

(** X5.  A refresh whose download succeeds with a non-empty body that
    opens as an archive replaces the corpus by the parse of that archive
    alone, whatever the corpus held before, sets [last_update_time] to the
    clock reading, and sets [initial_load_time] to it only if it was unset. *)
Theorem X5_successful_refresh_replaces_corpus
    (url : str) (w : World) (k : nat) (data : bytes) (members : list TarMember) :
  k < MAX_RETRIES ->
  (forall n, n < k -> fails_at w n) ->
  net w (requests w + k) = inr data ->
  data <> [] ->
  tar_open data = inr members ->
  exists w',
    download_and_parse_archive url w = (Return tt, w') /\
    url_contents (globals w') = parse_members members /\
    last_update_time (globals w') = Some (clock w) /\
    initial_load_time (globals w') =
      match initial_load_time (globals w) with
      | None => Some (clock w)
      | Some t => Some t
      end /\
    sleeps w' = sleeps w ++ repeat RETRY_INTERVAL k /\
    requests w' = requests w + S k.
Proof.
  intros Hk Hfail Hok Hne Htar.
  rewrite download_and_parse_archive_unfold. unfold download_archive.
  rewrite (@download_loop_success k _ _ _ _ data) by (auto; lia).
  destruct data as [|b data]; [congruence|]. rewrite Htar.
  eexists. split; [reflexivity|]. simpl. auto.
Qed.

End RefreshSuccess.

(** X5 (witness): one failure, then the archive of [example_runtime]. *)
Lemma X5_successful_refresh_witness :
  let url := lit "http://x/archive.tar.gz" in
  let w := example_world 1 [Byte.x1f] in
  (1 < MAX_RETRIES /\ (forall n, n < 1 -> fails_at w n) /\
   net w (requests w + 1) = inr [Byte.x1f] /\ [Byte.x1f] <> [] /\
   @tar_open example_runtime [Byte.x1f] = inr example_members) /\
  exists w',
    @download_and_parse_archive example_runtime url w = (Return tt, w') /\
    url_contents (globals w') = parse_members example_members /\
    last_update_time (globals w') = Some (clock w) /\
    initial_load_time (globals w') =
      match initial_load_time (globals w) with
      | None => Some (clock w)
      | Some t => Some t
      end /\
    sleeps w' = sleeps w ++ repeat RETRY_INTERVAL 1 /\
    requests w' = requests w + 2.
Proof.
  intros url w.
  assert (H1 : 1 < MAX_RETRIES) by (unfold MAX_RETRIES; lia).
  assert (H2 : forall n, n < 1 -> fails_at w n)
    by (intros n Hn; apply example_world_fails; exact Hn).
  assert (H3 : net w (requests w + 1) = inr [Byte.x1f]) by reflexivity.
  assert (H4 : [Byte.x1f] <> []) by discriminate.
  assert (H5 : @tar_open example_runtime [Byte.x1f] = inr example_members) by reflexivity.
  split; [repeat split; assumption|].
  exact (@X5_successful_refresh_replaces_corpus example_runtime url w 1 [Byte.x1f]
           example_members H1 H2 H3 H4 H5).
Defined.

(** ** Parsing, continued *)

Lemma entry_of_inv (m : TarMember) (category url content : str) :
  entry_of m = Some (category, url, content) ->
  isfile m = true /\
  3 <= length (split (lit "/") (name m)) /\
  category = nth 2 (split (lit "/") (name m)) [] /\
  exists line0 rest,
    splitlines (text m) = line0 :: rest /\
    directive_matches (strip line0) url /\
    content = join [LF] rest.
Proof.
  unfold entry_of, process_member.
  destruct (isfile m); [|discriminate].
  destruct (3 <=? length (split (lit "/") (name m))) eqn:E; [|discriminate].
  destruct (splitlines (text m)) as [|line0 rest]; [discriminate|].
  destruct (url_match (strip line0)) as [url'|] eqn:Eu; [|discriminate].
  rewrite set2_nil. intros H. injection H as <- <- <-.
  split; [reflexivity|]. split; [apply Nat.leb_le; exact E|]. split; [reflexivity|].
  exists line0, rest. split; [reflexivity|]. split; [|reflexivity].
  apply url_match_spec. exact Eu.
Qed.

Lemma fold_process_member_provenance (members : list TarMember) :
  forall (temp : Corpus) (category url content : str),
    get2 category url (fold_left process_member members temp) = Some content ->
    get2 category url temp = Some content \/
    exists m, In m members /\ entry_of m = Some (category, url, content).
Proof.
  induction members as [|m members IH]; intros temp c u t Hget; simpl in Hget; [auto|].
  apply IH in Hget as [Hget | [m' [Hin Hm']]]; [|right; exists m'; simpl; auto].
  rewrite process_member_entry in Hget.
  destruct (entry_of m) as [[[c' u'] t']|] eqn:E; [|auto].
  destruct (list_eq_dec str_eq_dec [c'; u'] [c; u]) as [Heq|Hne].
  - injection Heq as -> ->. rewrite get2_set2_eq in Hget. injection Hget as ->.
    right. exists m. simpl. auto.
  - rewrite get2_set2_ne in Hget by congruence. auto.
Qed.

(** X6.  When several members of an archive declare the same URL in the
    same category, the corpus holds the content of the last of them. *)
Theorem X6_last_member_wins
    (before after : list TarMember) (m : TarMember) (category url content : str) :
  entry_of m = Some (category, url, content) ->
  (forall m' content', In m' after -> entry_of m' <> Some (category, url, content')) ->
  get2 category url (parse_members (before ++ m :: after)) = Some content.
Proof.
  intros Hm Hafter. unfold parse_members. rewrite fold_left_app. cbn [fold_left].
  rewrite process_member_entry, Hm.
  destruct (@fold_process_member_keeps after
              (set2 category url content (fold_left process_member before []))
              category url content (get2_set2_eq _ _ _ _))
    as [t [Hget [-> | [m' [Hin Hm']]]]]; [exact Hget|].
  destruct (Hafter m' t Hin Hm').
Qed.

(** X7.  Nothing is in the parsed corpus that the archive does not hold:
    an entry of the corpus stems from a regular member whose third path
    segment is the category, whose stripped first line carries the URL as
    directive, and whose remaining lines joined by newline are the
    content; the URL is not empty and holds no white space. *)
Theorem X7_corpus_entries_stem_from_members
    (members : list TarMember) (category url content : str) :
  get2 category url (parse_members members) = Some content ->
  (exists m line0 rest,
      In m members /\ isfile m = true /\
      category = nth 2 (split (lit "/") (name m)) [] /\
      splitlines (text m) = line0 :: rest /\
      directive_matches (strip line0) url /\
      content = join [LF] rest) /\
  url <> [] /\
  Forall (fun c => isspace c = false) url.
Proof.
  intros Hget.
  apply fold_process_member_provenance in Hget as [Hget | [m [Hin Hm]]];
    [discriminate|].
  apply entry_of_inv in Hm as [Hfile [_ [Hcat [line0 [rest [Hlines [Hmatch Hcontent]]]]]]].
  split; [exists m, line0, rest; repeat split; assumption|].
  destruct Hmatch as [l [ws [r [_ [_ [_ [Hne [Hall _]]]]]]]]. auto.
Qed.

Lemma splitlines_go_nonnil (s : str) :
  forall cur, cur <> [] \/ s <> [] -> splitlines_go cur s <> [].
Proof.
  induction s as [|c s IH]; intros cur H; simpl.
  - destruct H as [H|H]; [|congruence]. apply truthy_true in H. rewrite H. discriminate.
  - destruct (is_linebreak c).
    + destruct s as [|d s']; [discriminate|].
      destruct (char_eqb c CR && char_eqb d LF); discriminate.
    + apply IH. left. destruct cur; discriminate.
Qed.

(** A line without line boundary, ended by a newline, is the first line. *)
Lemma splitlines_go_first_line (first body : str) :
  Forall (fun c => is_linebreak c = false) first ->
  forall cur,
    splitlines_go cur (first ++ LF :: body) = (cur ++ first) :: splitlines_go [] body.
Proof.
  induction 1 as [|c first Hc Hfirst IH]; intros cur.
  - rewrite app_nil_r. simpl. destruct body; reflexivity.
  - simpl. rewrite Hc, IH, <- app_assoc. reflexivity.
Qed.

(** Text whose only line boundaries are newlines and which does not end
    in one is put together again by joining its lines with newlines. *)
Lemma join_splitlines_go (s : str) :
  forall cur,
    Forall (fun c => is_linebreak c = true -> c = LF) s ->
    last s 0%N <> LF ->
    join [LF] (splitlines_go cur s) = cur ++ s.
Proof.
  induction s as [|c s IH]; intros cur Hlf Hlast.
  - simpl. destruct cur; [reflexivity | simpl; rewrite app_nil_r; reflexivity].
  - apply Forall_cons_iff in Hlf as [Hc Hlf].
    assert (Hlast' : last s 0%N <> LF).
    { destruct s as [|d s']; [discriminate | exact Hlast]. }
    cbn [splitlines_go]. destruct (is_linebreak c) eqn:E.
    + rewrite (Hc eq_refl) in *.
      destruct s as [|d s']; [exfalso; apply Hlast; reflexivity|].
      change (char_eqb LF CR) with false. cbn [andb].
      rewrite join_cons_nonnil by (apply splitlines_go_nonnil; right; discriminate).
      rewrite (IH [] Hlf Hlast'). reflexivity.
    + rewrite (IH _ Hlf Hlast'), <- app_assoc. reflexivity.
Qed.

(** X8.  The content stored for a file is its body after the directive
    line: when the first line ends in a newline and the body uses
    newlines as its only line boundaries and does not end in one, the
    content is the body, code point for code point. *)
Theorem X8_content_is_the_body
    (temp : Corpus) (m : TarMember) (first body url : str) :
  isfile m = true ->
  3 <= length (split (lit "/") (name m)) ->
  text m = first ++ LF :: body ->
  Forall (fun c => is_linebreak c = false) first ->
  directive_matches (strip first) url ->
  Forall (fun c => is_linebreak c = true -> c = LF) body ->
  last body 0%N <> LF ->
  get2 (nth 2 (split (lit "/") (name m)) []) url (process_member temp m) = Some body.
Proof.
  intros Hfile Hparts Htext Hfirst Hmatch Hbody Hlast.
  assert (Hlines : splitlines (text m) = first :: splitlines body).
  { rewrite Htext. unfold splitlines.
    rewrite (splitlines_go_first_line body Hfirst []). reflexivity. }
  rewrite process_member_entry, (entry_of_spec m Hfile Hparts Hlines).
  apply url_match_spec in Hmatch. rewrite Hmatch.
  rewrite get2_set2_eq. f_equal.
  unfold splitlines. apply (join_splitlines_go [] Hbody Hlast).
Qed.

(** ** Searching, continued *)

Lemma set_set {V} (d : dict V) (k : str) (v v0 : V) :
  Dict.set k v (Dict.set k v0 d) = Dict.set k v d.
Proof.
  induction d as [|[k' v'] d IH]; simpl.
  - rewrite str_eqb_refl. reflexivity.
  - destruct (str_eqb k' k) eqn:E; simpl; rewrite E; [reflexivity|].
    rewrite IH. reflexivity.
Qed.

Lemma set2_alt {V} (d : dict (dict V)) (k1 k2 : str) (v : V) :
  set2 k1 k2 v d = Dict.set k1 (Dict.set k2 v (get_or_empty k1 d)) d.
Proof.
  unfold set2, get_or_empty, Dict.mem.
  destruct (Dict.get k1 d) as [inner|] eqn:E.
  - rewrite E. reflexivity.
  - rewrite get_set_eq. apply set_set.
Qed.

Lemma Forall_set {V} (Q : str * V -> Prop) (d : dict V) (k : str) (v : V) :
  Forall Q d -> Q (k, v) -> Forall Q (Dict.set k v d).
Proof.
  intros Hd Hv. rewrite Forall_forall in *. intros [k' v'] Hin.
  apply In_set in Hin as [[-> ->] | Hin]; [exact Hv | apply Hd; exact Hin].
Qed.

Lemma set_nonnil {V} (d : dict V) (k : str) (v : V) : Dict.set k v d <> [].
Proof. destruct d as [|[k' v'] d]; simpl; [|destruct (str_eqb k' k)]; discriminate. Qed.

(** The scan only ever adds a searched category, with at least one URL. *)
Lemma scan_shape (matches : str -> bool) (category : str) (corpus : Corpus) :
  Forall (fun item => In (fst item) (categories_to_search category) /\ snd item <> [])
         (scan matches category corpus).
Proof.
  unfold scan. pose (all := categories_to_search category).
  assert (H : forall cats found,
             incl cats all ->
             Forall (fun item => In (fst item) all /\ snd item <> []) found ->
             Forall (fun item => In (fst item) all /\ snd item <> [])
               (fold_left
                  (fun found_results cat =>
                     fold_left (scan_item matches cat) (get_or_empty cat corpus)
                       found_results) cats found)).
  { induction cats as [|cat cats IH]; intros found Hincl Hf; [exact Hf|].
    cbn [fold_left]. apply IH; [intros x Hx; apply Hincl; right; exact Hx|].
    assert (Hcat : In cat all) by (apply Hincl; left; reflexivity).
    clear IH Hincl. revert found Hf.
    induction (get_or_empty cat corpus) as [|[url content] items IHi]; intros found Hf;
      [exact Hf|].
    cbn [fold_left]. apply IHi. rewrite scan_item_eq.
    destruct (hits_of matches content) as [|hit hits]; [exact Hf|].
    rewrite set2_alt. apply Forall_set; [exact Hf|].
    split; [exact Hcat | apply set_nonnil]. }
  apply (H all []); [apply incl_refl | constructor].
Qed.

Lemma get2_Some_In {V} (d : dict (dict V)) (k1 k2 : str) (v : V) :
  get2 k1 k2 d = Some v -> exists inner, In (k1, inner) d.
Proof.
  unfold get2. destruct (Dict.get k1 d) as [inner|] eqn:E; [|discriminate].
  intros _. exists inner. apply get_Some_In. exact E.
Qed.

Lemma hits_of_nil (matches : str -> bool) (content : str) :
  hits_of matches content = [] <->
  forall line, In line (splitlines content) -> matches line = false.
Proof.
  destruct (@hits_of_is_match_list matches (fun line => matches line = true) content
              (fun line => iff_refl _)) as [Hmem _].
  split.
  - intros Hnil line Hin. destruct (matches line) eqn:E; [|reflexivity].
    apply In_nth_error in Hin as [i Hi].
    assert (Hex : In (S i, strip line) (hits_of matches content)).
    { apply Hmem. exists line. rewrite Nat.sub_1_r. simpl. repeat split; auto. lia. }
    rewrite Hnil in Hex. destruct Hex.
  - intros Hno. destruct (hits_of matches content) as [|[n t] hits] eqn:E; [reflexivity|].
    destruct (proj1 (Hmem n t) (or_introl eq_refl)) as [line [_ [Hnth [Hhit _]]]].
    rewrite (Hno line (nth_error_In _ _ Hnth)) in Hhit. discriminate.
Qed.

Section SearchMore.
Context {rt : Runtime}.

(** X9.  The regex search holds at a category and URL exactly the lines of
    that URL's content in which the compiled pattern finds a match, each
    as its 1-based line number with its stripped text, in ascending line
    order; the entry is there when the category is searched and some line
    matches, and there is no entry when none does. *)
Theorem X9_regex_search_matching_lines
    (corpus : Corpus) (category cat url : str) (compiled : regex) :
  corpus_wf corpus ->
  let hit := fun line => re_search compiled line = true in
  let found_results := scan (re_search compiled) category corpus in
  (forall matching_lines,
      get2 cat url found_results = Some matching_lines ->
      In cat (categories_to_search category) /\
      matching_lines <> [] /\
      exists content,
        get2 cat url corpus = Some content /\
        is_match_list hit content matching_lines) /\
  (forall content,
      In cat (categories_to_search category) ->
      get2 cat url corpus = Some content ->
      (exists line, In line (splitlines content) /\ hit line) ->
      exists matching_lines, get2 cat url found_results = Some matching_lines) /\
  (forall content,
      get2 cat url corpus = Some content ->
      (forall line, In line (splitlines content) -> ~ hit line) ->
      get2 cat url found_results = None).
Proof.
  intros Hwf hit found_results.
  pose proof (get2_scan (re_search compiled) category cat url Hwf) as Hget.
  fold found_results in Hget. unfold lookup_hit in Hget.
  split; [|split].
  - intros ml Hml. rewrite Hget in Hml.
    destruct (existsb (str_eqb cat) (categories_to_search category)) eqn:Ecat;
      [|discriminate].
    destruct (get2 cat url corpus) as [content|] eqn:Ec; [|discriminate].
    pose proof (@hits_of_is_match_list (re_search compiled) hit content
                  (fun line => iff_refl _)) as Hlist.
    destruct (hits_of (re_search compiled) content) as [|h hs] eqn:Eh; [discriminate|].
    injection Hml as <-.
    apply existsb_exists in Ecat as [cat' [Hin Heq]].
    apply str_eqb_eq in Heq. subst cat'.
    split; [exact Hin|]. split; [discriminate|].
    exists content. split; [reflexivity | exact Hlist].
  - intros content Hin Hc [line [Hline Hhit]]. rewrite Hget, Hc.
    assert (Ecat : existsb (str_eqb cat) (categories_to_search category) = true).
    { apply existsb_exists. exists cat. split; [exact Hin | apply str_eqb_refl]. }
    rewrite Ecat.
    destruct (hits_of (re_search compiled) content) as [|h hs] eqn:Eh; [|eauto].
    unfold hit in Hhit.
    rewrite (proj1 (hits_of_nil _ _) Eh line Hline) in Hhit. discriminate.
  - intros content Hc Hno. rewrite Hget, Hc.
    destruct (existsb (str_eqb cat) (categories_to_search category)); [|reflexivity].
    assert (Eh : hits_of (re_search compiled) content = []).
    { apply hits_of_nil. intros line Hin.
      destruct (re_search compiled line) eqn:E; [|reflexivity].
      destruct (Hno line Hin E). }
    rewrite Eh. reflexivity.
Qed.

(** X11.  The answer is "not found" exactly when no line of any content
    in the searched categories passes the test. *)
Theorem X11_not_found_iff_nothing_matches
    (matches : str -> bool) (category query : str) (corpus : Corpus) :
  corpus_wf corpus ->
  (render category query (scan matches category corpus) = NotFound category query <->
   forall cat url content line,
     In cat (categories_to_search category) ->
     get2 cat url corpus = Some content ->
     In line (splitlines content) ->
     matches line = false).
Proof.
  intros Hwf. split.
  - intros Hrender cat url content line Hcat Hc Hline.
    assert (Hnil : scan matches category corpus = []).
    { unfold render in Hrender. destruct (scan matches category corpus); [reflexivity | discriminate]. }
    pose proof (get2_scan matches category cat url Hwf) as Hget.
    rewrite Hnil, Hc in Hget. unfold lookup_hit in Hget.
    assert (Ecat : existsb (str_eqb cat) (categories_to_search category) = true).
    { apply existsb_exists. exists cat. split; [exact Hcat | apply str_eqb_refl]. }
    rewrite Ecat in Hget.
    destruct (hits_of matches content) as [|h hs] eqn:Eh; [|discriminate].
    apply (proj1 (hits_of_nil _ _) Eh line Hline).
  - intros Hno. unfold render.
    pose proof (scan_shape matches category corpus) as Hshape.
    destruct (scan matches category corpus) as [|[cat inner] found] eqn:Es; [reflexivity|].
    exfalso. apply Forall_cons_iff in Hshape as [[Hcat Hinner] _]. cbn [fst snd] in *.
    destruct inner as [|[url ml] inner]; [congruence|].
    pose proof (get2_scan matches category cat url Hwf) as Hget.
    rewrite Es in Hget. unfold get2 in Hget at 1.
    cbn [Dict.get] in Hget. rewrite str_eqb_refl in Hget.
    cbn [Dict.get] in Hget. rewrite str_eqb_refl in Hget.
    unfold lookup_hit in Hget.
    destruct (existsb (str_eqb cat) (categories_to_search category)); [|discriminate].
    destruct (get2 cat url corpus) as [content|] eqn:Ec; [|discriminate].
    assert (Eh : hits_of matches content = []).
    { apply hits_of_nil. intros line Hline. apply (Hno cat url content line Hcat Ec Hline). }
    rewrite Eh in Hget. discriminate.
Qed.

End SearchMore.

Lemma valid_category_searches (category : str) :
  existsb (str_eqb category) VALID_CATEGORIES = true ->
  incl (categories_to_search category) [lit "content"; lit "dns"].
Proof.
  intros H. apply existsb_exists in H as [c [Hin Heq]].
  apply str_eqb_eq in Heq. subst c.
  destruct Hin as [<- | [<- | [<- | []]]]; vm_compute; intros x Hx; intuition.
Qed.

Lemma scan_categories (matches : str -> bool) (category : str) (corpus : Corpus)
    (cat url : str) (matching_lines : list MatchLine) :
  get2 cat url (scan matches category corpus) = Some matching_lines ->
  In cat (categories_to_search category).
Proof.
  intros H. apply get2_Some_In in H as [inner Hin].
  pose proof (scan_shape matches category corpus) as Hshape.
  rewrite Forall_forall in Hshape. apply (Hshape _ Hin).
Qed.

Section Handlers.
Context {rt : Runtime}.

Lemma deliver_Results (has_message : bool) (a : answer) (c q : str) (found : SearchResult) :
  In (Reply (Results c q found)) (deliver has_message a) -> a = Results c q found.
Proof.
  unfold deliver. destruct has_message; simpl; intros [H|H]; try contradiction;
    try discriminate. injection H as ->. reflexivity.
Qed.

Lemma render_Results (category query c q : str) (f found : SearchResult) :
  render category query f = Results c q found -> found = f.
Proof.
  unfold render. destruct f; [discriminate|]. intros H. injection H as _ _ <-. reflexivity.
Qed.

(** X10.  Whatever [/search] or [/regex] is asked and whatever the corpus
    holds, the results delivered list entries of the categories [content]
    and [dns] only: entries that parsing has kept under another tag are
    never shown. *)
Theorem X10_results_only_from_content_and_dns
    (has_message : bool) (args : list str) (w w' : World) (events : list event)
    (c q : str) (found : SearchResult) (cat url : str) (matching_lines : list MatchLine) :
  search has_message args w = (Return events, w') \/
  regex_search has_message args w = (Return events, w') ->
  In (Reply (Results c q found)) events ->
  get2 cat url found = Some matching_lines ->
  cat = lit "content" \/ cat = lit "dns".
Proof.
  assert (Hall : incl (categories_to_search (lit "all")) [lit "content"; lit "dns"])
    by (apply valid_category_searches; reflexivity).
  assert (Hfin : forall matches category query,
             incl (categories_to_search category) [lit "content"; lit "dns"] ->
             In (Reply (Results c q found))
                (deliver has_message
                   (render category query
                      (scan matches category (url_contents (globals w))))) ->
             get2 cat url found = Some matching_lines ->
             cat = lit "content" \/ cat = lit "dns").
  { intros matches category query Hincl Hin Hget.
    apply deliver_Results, render_Results in Hin. subst found.
    apply scan_categories, Hincl in Hget.
    destruct Hget as [<- | [<- | []]]; auto. }
  assert (Hno : forall a, (forall c' q' f, a <> Results c' q' f) ->
                          In (Reply (Results c q found)) (deliver has_message a) -> False).
  { intros a Ha Hin. apply deliver_Results in Hin. apply (Ha _ _ _ Hin). }
  intros [Hrun | Hrun] Hin Hget.
  - unfold search in Hrun.
    destruct (length args <? 1).
    { injection Hrun as <- _. exfalso. apply (Hno Usage); [discriminate | exact Hin]. }
    assert (Hkw : forall category keyword,
               incl (categories_to_search category) [lit "content"; lit "dns"] ->
               search_keyword has_message category keyword w = (Return events, w') ->
               cat = lit "content" \/ cat = lit "dns").
    { intros category keyword Hincl Hk. unfold search_keyword in Hk.
      destruct (negb (truthy keyword)).
      - injection Hk as <- _. exfalso. apply (Hno MissingQuery); [discriminate | exact Hin].
      - unfold bind, get_globals, ret in Hk. injection Hk as <- _.
        apply (Hfin _ _ _ Hincl Hin Hget). }
    destruct (startswith (lit "/") (hd [] args)); [|apply (Hkw _ _ Hall Hrun)].
    destruct (existsb (str_eqb (lower (tl (hd [] args)))) VALID_CATEGORIES) eqn:Ev;
      cbn [negb] in Hrun.
    + apply (Hkw _ _ (valid_category_searches _ Ev) Hrun).
    + injection Hrun as <- _. exfalso.
      apply (Hno (InvalidCategory (hd [] args))); [discriminate | exact Hin].
  - unfold regex_search in Hrun.
    destruct (length args <? 1).
    { injection Hrun as <- _. exfalso. apply (Hno Usage); [discriminate | exact Hin]. }
    assert (Hpat : forall category pattern,
               incl (categories_to_search category) [lit "content"; lit "dns"] ->
               regex_search_pattern has_message category pattern w = (Return events, w') ->
               cat = lit "content" \/ cat = lit "dns").
    { intros category pattern Hincl Hk. unfold regex_search_pattern in Hk.
      destruct (negb (truthy pattern)).
      - injection Hk as <- _. exfalso. apply (Hno MissingQuery); [discriminate | exact Hin].
      - destruct (re_compile pattern) as [compiled|error|e].
        + unfold bind, get_globals, ret in Hk. injection Hk as <- _.
          apply (Hfin _ _ _ Hincl Hin Hget).
        + injection Hk as <- _. exfalso.
          apply (Hno (InvalidPattern error)); [discriminate | exact Hin].
        + discriminate Hk. }
    destruct (startswith (lit "/") (hd [] args)); [|apply (Hpat _ _ Hall Hrun)].
    destruct (existsb (str_eqb (lower (tl (hd [] args)))) VALID_CATEGORIES) eqn:Ev;
      cbn [negb] in Hrun.
    + apply (Hpat _ _ (valid_category_searches _ Ev) Hrun).
    + injection Hrun as <- _. exfalso.
      apply (Hno (InvalidCategory (hd [] args))); [discriminate | exact Hin].
Qed.

End Handlers.

(** ** Administration *)

Section Administration.
Context {rt : Runtime}.

(** X13.  While every GET fails, the rounds of [periodic_update] leave
    the corpus and the time stamps as they are. *)
Theorem X13_periodic_update_keeps_corpus_offline
    (readings : list Z) (archive_url : str) (w : World) :
  (forall n, exists e, net w n = inl e) ->
  globals (snd (periodic_update readings archive_url w)) = globals w.
Proof.
  revert w. induction readings as [|t readings IH]; intros w Hdown; [reflexivity|].
  cbn [periodic_update]. unfold bind at 1. unfold sleep at 1.
  unfold bind at 1. unfold elapse at 1. unfold bind at 1.
  match goal with |- context [try_except _ _ ?w0] => set (w1 := w0) end.
  assert (Hraise : download_and_parse_archive archive_url w1 =
                   (Raise (DownloadGaveUp archive_url), after_attempts w1 5 4)).
  { rewrite download_and_parse_archive_unfold. unfold download_archive.
    rewrite (@download_loop_give_up 4);
      [reflexivity | unfold MAX_RETRIES; lia | reflexivity |].
    intros n _. apply Hdown. }
  unfold try_except. rewrite Hraise. unfold ret.
  rewrite IH; [reflexivity|]. intros n. apply Hdown.
Qed.

(** X14.  [fetchnow] does nothing but answer for a caller who is not an
    administrator, whether or not the answer can be sent.  For any caller,
    and whatever becomes of the replies, the corpus and the time stamps
    are afterwards untouched or wholly rebuilt.  The answer that reports
    success is delivered only after the corpus has been rebuilt; and when
    sending that answer does not fail, the answer that reports failure is
    delivered only with the corpus and the time stamps untouched. *)
Theorem X14_fetchnow_answers_and_state
    (ADMIN_IDS : list Z) (user_id : option Z) (has_message : bool)
    (raises : admin_answer -> option exn) (w : World) :
  exists r w',
    fetchnow ADMIN_IDS user_id has_message raises w = (r, w') /\
    r <> OutOfFuel /\
    (not_admin ADMIN_IDS user_id = true -> w' = w) /\
    (globals w' = globals w \/
     exists members, globals w' = published members (clock w) (globals w)) /\
    (forall events,
        r = Return events -> In (AdminReply ReloadSucceeded) events ->
        not_admin ADMIN_IDS user_id = false /\
        exists members, globals w' = published members (clock w) (globals w)) /\
    (forall events,
        r = Return events -> In (AdminReply ReloadFailed) events ->
        raises ReloadSucceeded = None ->
        globals w' = globals w).
Proof.
  assert (Hreply : forall a w0,
             (reply_text has_message raises a w0 = (Return [AdminReply a], w0) /\
              has_message = true /\ raises a = None) \/
             (reply_text has_message raises a w0 = (Return [AdminLogWarning], w0) /\
              has_message = false) \/
             (exists e, reply_text has_message raises a w0 = (Raise e, w0) /\
                        has_message = true /\ raises a = Some e)).
  { intros a w0. unfold reply_text. destruct has_message; [|auto].
    destruct (raises a) as [e|]; [right; right; exists e; auto | left; auto]. }
  assert (Hin : forall a b, In (AdminReply a) [AdminReply b] -> a = b).
  { intros a b [H|[]]. injection H as ->. reflexivity. }
  assert (Hwarn : forall a, ~ In (AdminReply a) [AdminLogWarning]).
  { intros a [H|[]]. discriminate H. }
  unfold fetchnow. destruct (not_admin ADMIN_IDS user_id).
  - destruct (Hreply PermissionDenied w) as [[Hr _] | [[Hr _] | [e [Hr _]]]];
      rewrite Hr; eexists; exists w; (split; [reflexivity|]);
      (split; [discriminate|]); (split; [reflexivity|]); (split; [left; reflexivity|]);
      split; intros events Hev Hmem; try discriminate Hev;
      injection Hev as <-; first [apply Hin in Hmem; discriminate Hmem | destruct (Hwarn _ Hmem)].
  - unfold try_except, bind.
    destruct (download_and_parse_archive_all_or_nothing ARCHIVE_URL w)
      as [[w' [members [Hrun Hg]]] | [e [w' [Hrun Hg]]]]; rewrite Hrun.
    + destruct (Hreply ReloadSucceeded w') as [[Hr _] | [[Hr _] | [e [Hr [_ He]]]]];
        rewrite Hr.
      * eexists; exists w'. split; [reflexivity|]. split; [discriminate|].
        split; [discriminate|]. split; [right; eauto|].
        split; intros events Hev Hmem; injection Hev as <-.
        -- split; [reflexivity | eauto].
        -- apply Hin in Hmem. discriminate Hmem.
      * eexists; exists w'. split; [reflexivity|]. split; [discriminate|].
        split; [discriminate|]. split; [right; eauto|].
        split; intros events Hev Hmem; injection Hev as <-; destruct (Hwarn _ Hmem).
      * destruct (Hreply ReloadFailed w') as [[Hr' _] | [[Hr' _] | [e' [Hr' _]]]];
          rewrite Hr'; eexists; exists w'; (split; [reflexivity|]);
          (split; [discriminate|]); (split; [discriminate|]); (split; [right; eauto|]);
          split; intros events Hev Hmem; try discriminate Hev; injection Hev as <-;
          try (apply Hin in Hmem; discriminate Hmem); try (destruct (Hwarn _ Hmem)).
        intros Hnone. rewrite He in Hnone. discriminate Hnone.
    + destruct (Hreply ReloadFailed w') as [[Hr _] | [[Hr _] | [e' [Hr _]]]];
        rewrite Hr; eexists; exists w'; (split; [reflexivity|]);
        (split; [discriminate|]); (split; [discriminate|]); (split; [left; exact Hg|]);
        split; intros events Hev Hmem; try discriminate Hev; injection Hev as <-;
        try (apply Hin in Hmem; discriminate Hmem); try (destruct (Hwarn _ Hmem)).
      intros _. exact Hg.
Qed.

End Administration.

(** X13 (witness): three rounds on a network that is down. *)
Lemma X13_periodic_update_offline_witness :
  let w := example_world 1000 [] in
  let down := {| net := fun _ => inl ClientError; requests := requests w;
                 sleeps := sleeps w; clock := clock w; globals := globals w |} in
  (forall n, exists e, net down n = inl e) /\
  globals (snd (@periodic_update example_runtime [10; 20; 30]%Z ARCHIVE_URL down)) =
    globals down.
Proof.
  intros w down.
  assert (H : forall n, exists e, net down n = inl e)
    by (intros n; exists ClientError; reflexivity).
  split; [exact H|].
  exact (@X13_periodic_update_keeps_corpus_offline example_runtime [10; 20; 30]%Z
           ARCHIVE_URL down H).
Defined.

(** ** Recently seen users *)

Section IntDictFacts.
Context {V : Type}.
Implicit Types (d : IntDict.t V) (k : Z) (v : V).

Lemma iget_set_eq d k v : IntDict.get k (IntDict.set k v d) = Some v.
Proof.
  induction d as [|[k' v'] d IH]; simpl.
  - rewrite Z.eqb_refl. reflexivity.
  - destruct (k' =? k)%Z eqn:E; simpl; rewrite E; [reflexivity | exact IH].
Qed.

Lemma iget_set_ne d k k' v :
  k <> k' -> IntDict.get k' (IntDict.set k v d) = IntDict.get k' d.
Proof.
  intros Hne. apply Z.eqb_neq in Hne.
  induction d as [|[k0 v0] d IH]; simpl.
  - rewrite Hne. reflexivity.
  - destruct (k0 =? k)%Z eqn:E; simpl.
    + apply Z.eqb_eq in E. subst k0. rewrite Hne. reflexivity.
    + rewrite IH. reflexivity.
Qed.

Lemma iget_keys d k : In k (IntDict.keys d) <-> IntDict.get k d <> None.
Proof.
  induction d as [|[k0 v0] d IH]; simpl; [split; [intros [] | congruence]|].
  destruct (k0 =? k)%Z eqn:E.
  - apply Z.eqb_eq in E. split; [discriminate | auto].
  - apply Z.eqb_neq in E. rewrite <- IH. split; [intros [H|H]; [contradiction | exact H] | auto].
Qed.

Lemma iget_In d k v : IntDict.wf d -> (In (k, v) d <-> IntDict.get k d = Some v).
Proof.
  unfold IntDict.wf. induction d as [|[k0 v0] d IH]; simpl; intros Hwf.
  - split; [intros [] | discriminate].
  - apply NoDup_cons_iff in Hwf as [Hnotin Hwf]. specialize (IH Hwf).
    destruct (k0 =? k)%Z eqn:E.
    + apply Z.eqb_eq in E. subst k0. split.
      * intros [H|H]; [congruence|]. exfalso. apply Hnotin.
        apply in_map_iff. exists (k, v). auto.
      * intros H. left. congruence.
    + apply Z.eqb_neq in E. rewrite <- IH. split; [intros [H|H]; [congruence | exact H] | auto].
Qed.

Lemma iwf_set d k v : IntDict.wf d -> IntDict.wf (IntDict.set k v d).
Proof.
  unfold IntDict.wf. induction d as [|[k0 v0] d IH]; simpl; intros H.
  - constructor; [intros [] | constructor].
  - apply NoDup_cons_iff in H as [Hn Hd].
    destruct (k0 =? k)%Z eqn:E; simpl.
    + constructor; assumption.
    + constructor; [|apply IH; exact Hd].
      intros Hin. apply iget_keys in Hin. apply Z.eqb_neq in E.
      rewrite iget_set_ne in Hin by congruence. apply iget_keys in Hin. contradiction.
Qed.

(** Deleting a key of a dictionary raises no [KeyError], removes that
    key and leaves the others. *)
Lemma idel_spec d k :
  IntDict.wf d -> In k (IntDict.keys d) ->
  exists d',
    IntDict.del k d = Some d' /\ IntDict.wf d' /\
    forall k', IntDict.get k' d' = if (k' =? k)%Z then None else IntDict.get k' d.
Proof.
  unfold IntDict.wf. induction d as [|[k0 v0] d IH]; simpl; intros Hwf Hin; [destruct Hin|].
  apply NoDup_cons_iff in Hwf as [Hnotin Hwf].
  destruct (k0 =? k)%Z eqn:E.
  - apply Z.eqb_eq in E. subst k0. exists d. split; [reflexivity|]. split; [exact Hwf|].
    intros k'. rewrite (Z.eqb_sym k k'). destruct (k' =? k)%Z eqn:E'; [|reflexivity].
    apply Z.eqb_eq in E'. subst k'.
    destruct (IntDict.get k d) eqn:G; [|reflexivity].
    exfalso. apply Hnotin. apply iget_keys. congruence.
  - apply Z.eqb_neq in E. destruct Hin as [Hin|Hin]; [contradiction|].
    destruct (IH Hwf Hin) as [d' [Hdel [Hwf' Hget]]].
    rewrite Hdel. exists ((k0, v0) :: d'). split; [reflexivity|]. split.
    + simpl. constructor; [|exact Hwf'].
      intros Hin'. apply iget_keys in Hin'. rewrite Hget in Hin'.
      rewrite (proj2 (Z.eqb_neq k0 k) E) in Hin'. apply iget_keys in Hin'. contradiction.
    + intros k'. simpl. rewrite Hget.
      destruct (k0 =? k')%Z eqn:E0; [|reflexivity].
      apply Z.eqb_eq in E0. subst k'. rewrite (proj2 (Z.eqb_neq k0 k) E). reflexivity.
Qed.

Lemma idel_all (ks : list Z) :
  forall d,
    IntDict.wf d -> NoDup ks -> incl ks (IntDict.keys d) ->
    exists d',
      fold_left
        (fun o uid => match o with Some d0 => IntDict.del uid d0 | None => None end)
        ks (Some d) = Some d' /\
      IntDict.wf d' /\
      (forall k, In k ks -> IntDict.get k d' = None) /\
      (forall k, ~ In k ks -> IntDict.get k d' = IntDict.get k d).
Proof.
  induction ks as [|k ks IH]; intros d Hwf Hnd Hincl.
  - exists d. simpl. repeat split; auto. intros k [].
  - apply NoDup_cons_iff in Hnd as [Hk Hnd].
    destruct (@idel_spec d k Hwf (Hincl k (or_introl eq_refl))) as [d1 [Hdel [Hwf1 Hget1]]].
    assert (Hincl1 : incl ks (IntDict.keys d1)).
    { intros k' Hk'. apply iget_keys. rewrite Hget1.
      destruct (k' =? k)%Z eqn:E; [apply Z.eqb_eq in E; subst; contradiction|].
      apply iget_keys. apply Hincl. right. exact Hk'. }
    destruct (IH d1 Hwf1 Hnd Hincl1) as [d' [Hfold [Hwf' [Hin Hout]]]].
    exists d'. cbn [fold_left]. rewrite Hdel. split; [exact Hfold|]. split; [exact Hwf'|].
    split.
    + intros k' [<-|Hk']; [|apply Hin; exact Hk'].
      rewrite (Hout k Hk), Hget1, Z.eqb_refl. reflexivity.
    + intros k' Hk'. rewrite Hout by (intros H; apply Hk'; right; exact H).
      rewrite Hget1. destruct (k' =? k)%Z eqn:E; [|reflexivity].
      apply Z.eqb_eq in E. subst k'. exfalso. apply Hk'. left. reflexivity.
Qed.

Lemma NoDup_keys_filter d (p : Z * V -> bool) :
  IntDict.wf d -> NoDup (map fst (filter p d)).
Proof.
  unfold IntDict.wf, IntDict.keys. induction d as [|item d IH]; simpl; intros H; [constructor|].
  apply NoDup_cons_iff in H as [Hn Hd].
  destruct (p item); [|apply IH; exact Hd].
  simpl. constructor; [|apply IH; exact Hd].
  intros Hin. apply Hn. apply in_map_iff in Hin as [x [Hx Hin]].
  apply in_map_iff. exists x. apply filter_In in Hin. tauto.
Qed.
End IntDictFacts.

(** The run of the bookkeeping: no [KeyError], and a user is recorded
    afterwards exactly when the dictionary with the caller entered holds
    a time for them that is not before the cutoff. *)
Lemma log_user_command_run (uid now : Z) (recent_user_ids : IntDict.t Z) :
  IntDict.wf recent_user_ids ->
  exists recent',
    log_user_command (Some uid) now recent_user_ids = Some recent' /\
    IntDict.wf recent' /\
    forall k,
      IntDict.get k recent' =
        match IntDict.get k (IntDict.set uid now recent_user_ids) with
        | Some t => if (t <? now - HOUR)%Z then None else Some t
        | None => None
        end.
Proof.
  intros Hwf. unfold log_user_command.
  set (d0 := IntDict.set uid now recent_user_ids).
  set (ks := map fst (filter (fun item => (snd item <? now - HOUR)%Z) d0)).
  assert (Hwf0 : IntDict.wf d0) by (apply iwf_set; exact Hwf).
  assert (Hks : forall k, In k ks <->
                          exists t, IntDict.get k d0 = Some t /\ (t <? now - HOUR)%Z = true).
  { intros k. unfold ks. rewrite in_map_iff. split.
    - intros [[k' t] [Hk Hin]]. simpl in Hk. subst k'.
      apply filter_In in Hin as [Hin Ht]. simpl in Ht.
      exists t. split; [apply iget_In; assumption | exact Ht].
    - intros [t [Hget Ht]]. exists (k, t). split; [reflexivity|].
      apply filter_In. split; [apply iget_In; assumption | exact Ht]. }
  assert (Hincl : incl ks (IntDict.keys d0)).
  { intros k Hk. apply Hks in Hk as [t [Hget _]]. apply iget_keys. congruence. }
  destruct (@idel_all Z ks d0 Hwf0 (@NoDup_keys_filter Z d0 _ Hwf0) Hincl)
    as [d' [Hfold [Hwf' [Hin Hout]]]].
  fold ks in Hfold. exists d'. split; [exact Hfold|]. split; [exact Hwf'|].
  intros k. destruct (in_dec Z.eq_dec k ks) as [Hk|Hk].
  - rewrite (Hin k Hk). apply Hks in Hk as [t [Hget Ht]]. rewrite Hget, Ht. reflexivity.
  - rewrite (Hout k Hk). destruct (IntDict.get k d0) as [t|] eqn:Hget; [|reflexivity].
    destruct (t <? now - HOUR)%Z eqn:Ht; [|reflexivity].
    exfalso. apply Hk. apply Hks. exists t. auto.
Qed.

(** X15.  The bookkeeping of [log_user_command] raises no [KeyError];
    afterwards the caller is recorded with the time of the call, nobody is
    recorded who was last seen more than an hour before it, and every
    other user seen within the hour is kept with the time recorded for
    them. *)
Theorem X15_log_user_command_keeps_last_hour
    (uid now : Z) (recent_user_ids : IntDict.t Z) :
  IntDict.wf recent_user_ids ->
  exists recent',
    log_user_command (Some uid) now recent_user_ids = Some recent' /\
    IntDict.wf recent' /\
    IntDict.get uid recent' = Some now /\
    (forall k t, IntDict.get k recent' = Some t -> (now - HOUR <= t)%Z) /\
    (forall k t, k <> uid ->
       (IntDict.get k recent' = Some t <->
        IntDict.get k recent_user_ids = Some t /\ (now - HOUR <= t)%Z)).
Proof.
  intros Hwf.
  destruct (@log_user_command_run uid now recent_user_ids Hwf) as [d' [Hrun [Hwf' Hget]]].
  exists d'. split; [exact Hrun|]. split; [exact Hwf'|].
  assert (Hkeep : forall k t, IntDict.get k d' = Some t -> (now - HOUR <= t)%Z).
  { intros k t Hk. rewrite Hget in Hk.
    destruct (IntDict.get k (IntDict.set uid now recent_user_ids)) as [t'|]; [|discriminate].
    destruct (Z.ltb_spec t' (now - HOUR)); [discriminate|]. injection Hk as <-. assumption. }
  split; [|split; [exact Hkeep|]].
  - rewrite Hget, iget_set_eq.
    destruct (Z.ltb_spec now (now - HOUR)) as [H|H]; [unfold HOUR in H; lia | reflexivity].
  - intros k t Hne. rewrite Hget, iget_set_ne by congruence.
    destruct (IntDict.get k recent_user_ids) as [t'|]; [|split; [discriminate | intros [H _]; discriminate]].
    destruct (Z.ltb_spec t' (now - HOUR)) as [Hlt|Hge].
    + split; [discriminate|]. intros [H Ht]. injection H as ->. lia.
    + split; [intros H; injection H as ->; auto | intros [H _]; exact H].
Qed.

(** X17.  A user recorded by [log_user_command] is in the list that
    [xinfo] shows, as long as [xinfo] reads the clock no later than an hour
    after the recording. *)
Theorem X17_recorded_user_is_listed
    (uid now now' : Z) (recent_user_ids recent' : IntDict.t Z) :
  IntDict.wf recent_user_ids ->
  log_user_command (Some uid) now recent_user_ids = Some recent' ->
  (now' <= now + HOUR)%Z ->
  In uid (user_ids_within_hour now' recent').
Proof.
  intros Hwf Hlog Hnow.
  destruct (@log_user_command_run uid now recent_user_ids Hwf) as [d' [Hlog' [Hwf' Hget']]].
  rewrite Hlog in Hlog'. injection Hlog' as <-.
  assert (Hget : IntDict.get uid recent' = Some now).
  { rewrite Hget', iget_set_eq.
    destruct (Z.ltb_spec now (now - HOUR)) as [H|H]; [unfold HOUR in H; lia | reflexivity]. }
  unfold user_ids_within_hour. apply in_map_iff. exists (uid, now).
  split; [reflexivity|]. apply filter_In. split; [apply iget_In; assumption|].
  simpl. apply Z.leb_le. lia.
Qed.

(** X16.  [format_user_id] keeps the length of the decimal id: an id of
    at most four characters is shown as it is, a longer one keeps its
    first two and last two characters and has every character between
    them replaced by an asterisk; administrators get [ #] appended. *)
Theorem X16_format_user_id_masks_the_middle (ADMIN_IDS : list Z) (user_id : Z) :
  let uid_str := str_of_int user_id in
  exists masked,
    format_user_id ADMIN_IDS user_id =
      masked ++ (if is_user_admin ADMIN_IDS user_id then lit " #" else []) /\
    len masked = len uid_str /\
    (len uid_str <= 4 -> masked = uid_str) /\
    (4 < len uid_str ->
       firstn 2 masked = firstn 2 uid_str /\
       skipn (len uid_str - 2) masked = skipn (len uid_str - 2) uid_str /\
       firstn (len uid_str - 4) (skipn 2 masked) = repeat 42%N (len uid_str - 4)).
Proof.
  intros uid_str. unfold format_user_id. fold uid_str.
  generalize uid_str. clear uid_str. intros s.
  set (masked := if len s <=? 4 then s
                 else firstn 2 s ++ repeat 42%N (len s - 4) ++ skipn (len s - 2) s).
  exists masked. split.
  { destruct (is_user_admin ADMIN_IDS user_id); [reflexivity | rewrite app_nil_r; reflexivity]. }
  unfold masked, len. clear masked. unfold str, char in *.
  destruct (Nat.leb_spec (length s) 4) as [Hle|Hgt].
  - split; [reflexivity|]. split; [reflexivity | lia].
  - assert (H2 : length (firstn 2 s) = 2) by (rewrite length_firstn; lia).
    split; [|split; [lia|]].
    { rewrite !length_app, H2, repeat_length, length_skipn. lia. }
    intros _. split; [|split].
    + rewrite firstn_app, H2, firstn_firstn. simpl. rewrite app_nil_r. reflexivity.
    + rewrite app_assoc, skipn_app.
      rewrite skipn_all2 by (rewrite length_app, H2, repeat_length; lia).
      rewrite length_app, H2, repeat_length.
      replace (length s - 2 - (2 + (length s - 4))) with 0 by lia. reflexivity.
    + rewrite skipn_app, H2, Nat.sub_diag.
      rewrite skipn_all2 by lia. simpl.
      rewrite firstn_app, repeat_length, Nat.sub_diag. simpl.
      rewrite app_nil_r. apply firstn_all2. rewrite repeat_length. lia.
Qed.

(** * Closed examples, continued *)

(** X6 (witness): two members declare the same URL under [dns]; the later
    one is what the corpus holds. *)
Lemma X6_last_member_wins_witness :
  let old := {| name := lit "./tmp/dns/a.txt"; isfile := true;
                text := lit "! url: http://x/a" ++ [LF] ++ lit "old" |} in
  let new := {| name := lit "./tmp/dns/a2.txt"; isfile := true;
                text := lit "! url: http://x/a" ++ [LF] ++ lit "new" |} in
  let other := {| name := lit "./tmp/dns/b.txt"; isfile := true;
                  text := lit "! url: http://x/b" ++ [LF] ++ lit "rule" |} in
  (entry_of new = Some (lit "dns", lit "http://x/a", lit "new") /\
   (forall m' content', In m' [other] ->
      entry_of m' <> Some (lit "dns", lit "http://x/a", content'))) /\
  get2 (lit "dns") (lit "http://x/a") (parse_members ([old] ++ new :: [other])) =
    Some (lit "new").
Proof.
  intros old new other.
  assert (H1 : entry_of new = Some (lit "dns", lit "http://x/a", lit "new"))
    by (vm_compute; reflexivity).
  assert (H2 : forall m' content', In m' [other] ->
                entry_of m' <> Some (lit "dns", lit "http://x/a", content')).
  { intros m' content' [<-|[]]. vm_compute. intros H. inversion H. }
  split; [split; assumption|].
  exact (@X6_last_member_wins [old] [other] new _ _ _ H1 H2).
Defined.

(** X7 (witness): the entry of [example_members] under [dns]. *)
Lemma X7_corpus_entries_witness :
  let content := join [LF] [lit "||Ads.example^"; lit "plain"; lit "  @@ads  "] in
  get2 (lit "dns") (lit "http://x/a") (parse_members example_members) = Some content /\
  (exists m line0 rest,
      In m example_members /\ isfile m = true /\
      lit "dns" = nth 2 (split (lit "/") (name m)) [] /\
      splitlines (text m) = line0 :: rest /\
      directive_matches (strip line0) (lit "http://x/a") /\
      content = join [LF] rest) /\
  lit "http://x/a" <> [] /\
  Forall (fun c => isspace c = false) (lit "http://x/a").
Proof.
  intros content.
  assert (H : get2 (lit "dns") (lit "http://x/a") (parse_members example_members)
              = Some content) by (vm_compute; reflexivity).
  split; [exact H|].
  exact (@X7_corpus_entries_stem_from_members example_members _ _ _ H).
Defined.

(** X8 (witness): a file with the directive line and the body [a], [b],
    [c] on three lines. *)
Lemma X8_content_is_the_body_witness :
  let first := lit "! url: http://example/x" in
  let body := lit "a" ++ [LF] ++ lit "b" ++ [LF] ++ lit "c" in
  let m := {| name := lit "./tmp/content/x.txt"; isfile := true;
              text := first ++ LF :: body |} in
  (isfile m = true /\
   3 <= length (split (lit "/") (name m)) /\
   text m = first ++ LF :: body /\
   Forall (fun c => is_linebreak c = false) first /\
   directive_matches (strip first) (lit "http://example/x") /\
   Forall (fun c => is_linebreak c = true -> c = LF) body /\
   last body 0%N <> LF) /\
  get2 (lit "content") (lit "http://example/x") (process_member [] m) = Some body.
Proof.
  intros first body m.
  assert (H1 : isfile m = true) by reflexivity.
  assert (H2 : 3 <= length (split (lit "/") (name m))) by (vm_compute; lia).
  assert (H3 : text m = first ++ LF :: body) by reflexivity.
  assert (H4 : Forall (fun c => is_linebreak c = false) first)
    by (unfold first; simpl lit; repeat (constructor; [reflexivity|]); constructor).
  assert (H5 : directive_matches (strip first) (lit "http://example/x"))
    by (apply url_match_spec; vm_compute; reflexivity).
  assert (H6 : Forall (fun c => is_linebreak c = true -> c = LF) body).
  { unfold body. simpl.
    repeat (constructor; [vm_compute; intros H; first [reflexivity | discriminate H]|]).
    constructor. }
  assert (H7 : last body 0%N <> LF) by (vm_compute; discriminate).
  split; [repeat split; assumption|].
  exact (@X8_content_is_the_body [] m first body _ H1 H2 H3 H4 H5 H6 H7).
Defined.

(** X9 (witness): the pattern [ads] of [example_runtime] over the parsed
    [example_members]. *)
Lemma X9_regex_search_witness :
  let corpus := parse_members example_members in
  let hit := fun line => @re_search example_runtime (lit "ads") line = true in
  corpus_wf corpus /\
  forall matching_lines,
    get2 (lit "dns") (lit "http://x/a")
      (scan (@re_search example_runtime (lit "ads")) (lit "all") corpus)
      = Some matching_lines ->
    In (lit "dns") (categories_to_search (lit "all")) /\
    matching_lines <> [] /\
    exists content,
      get2 (lit "dns") (lit "http://x/a") corpus = Some content /\
      is_match_list hit content matching_lines.
Proof.
  intros corpus hit.
  assert (Hwf : corpus_wf corpus) by apply parse_members_wf.
  split; [exact Hwf|].
  exact (proj1 (@X9_regex_search_matching_lines example_runtime corpus (lit "all")
                  (lit "dns") (lit "http://x/a") (lit "ads") Hwf)).
Defined.

(** X10 (witness): [/search ads] on the parsed [example_members]. *)
Lemma X10_results_witness :
  let g := {| url_contents := parse_members example_members;
              last_update_time := Some 100%Z; initial_load_time := Some 100%Z |} in
  let w := start_cycle {| cycle_net := failing_then 0 []; cycle_time := 100 |} g in
  let found :=
    scan (@keyword_matches example_runtime (lit "ads")) (lit "all") (url_contents g) in
  let events := [Reply (Results (lit "all") (lit "ads") found)] in
  let matching_lines := [(1, lit "||Ads.example^"); (3, lit "@@ads")] in
  ((@search example_runtime true [lit "ads"] w = (Return events, w) \/
    @regex_search example_runtime true [lit "ads"] w = (Return events, w)) /\
   In (Reply (Results (lit "all") (lit "ads") found)) events /\
   get2 (lit "dns") (lit "http://x/a") found = Some matching_lines) /\
  (lit "dns" = lit "content" \/ lit "dns" = lit "dns").
Proof.
  intros g w found events matching_lines.
  assert (H1 : @search example_runtime true [lit "ads"] w = (Return events, w) \/
               @regex_search example_runtime true [lit "ads"] w = (Return events, w))
    by (left; vm_compute; reflexivity).
  assert (H2 : In (Reply (Results (lit "all") (lit "ads") found)) events)
    by (left; reflexivity).
  assert (H3 : get2 (lit "dns") (lit "http://x/a") found = Some matching_lines)
    by (vm_compute; reflexivity).
  split; [repeat split; assumption|].
  exact (@X10_results_only_from_content_and_dns example_runtime true [lit "ads"] w w
           events (lit "all") (lit "ads") found (lit "dns") (lit "http://x/a")
           matching_lines H1 H2 H3).
Defined.

(** X11 (witness): the parsed [example_members]. *)
Lemma X11_not_found_witness :
  let corpus := parse_members example_members in
  let matches := @keyword_matches example_runtime (lit "rule") in
  corpus_wf corpus /\
  (render (lit "all") (lit "rule") (scan matches (lit "all") corpus)
     = NotFound (lit "all") (lit "rule") <->
   forall cat url content line,
     In cat (categories_to_search (lit "all")) ->
     get2 cat url corpus = Some content ->
     In line (splitlines content) ->
     matches line = false).
Proof.
  intros corpus matches.
  assert (Hwf : corpus_wf corpus) by apply parse_members_wf.
  split; [exact Hwf|].
  exact (@X11_not_found_iff_nothing_matches matches (lit "all") (lit "rule") corpus Hwf).
Defined.

(** X15 (witness): user 9 calls at time 5000000001; user 7 was last seen
    at time 0, user 8 at time 5000000000. *)
Lemma X15_log_user_command_witness :
  let recent := [(7, 0); (8, 5000000000)]%Z in
  IntDict.wf recent /\
  exists recent',
    log_user_command (Some 9%Z) 5000000001 recent = Some recent' /\
    IntDict.wf recent' /\
    IntDict.get 9%Z recent' = Some 5000000001%Z /\
    (forall k t, IntDict.get k recent' = Some t -> (5000000001 - HOUR <= t)%Z) /\
    (forall k t, k <> 9%Z ->
       (IntDict.get k recent' = Some t <->
        IntDict.get k recent = Some t /\ (5000000001 - HOUR <= t)%Z)).
Proof.
  intros recent.
  assert (H : IntDict.wf recent).
  { unfold IntDict.wf. simpl. repeat constructor; simpl; intuition discriminate. }
  split; [exact H|].
  exact (@X15_log_user_command_keeps_last_hour 9%Z 5000000001%Z recent H).
Defined.

(** X17 (witness): the same call, and [xinfo] a second later. *)
Lemma X17_recorded_user_witness :
  let recent := [(7, 0); (8, 5000000000)]%Z in
  let recent' := [(8, 5000000000); (9, 5000000001)]%Z in
  (IntDict.wf recent /\
   log_user_command (Some 9%Z) 5000000001 recent = Some recent' /\
   (5001000001 <= 5000000001 + HOUR)%Z) /\
  In 9%Z (user_ids_within_hour 5001000001 recent').
Proof.
  intros recent recent'.
  assert (H1 : IntDict.wf recent).
  { unfold IntDict.wf. simpl. repeat constructor; simpl; intuition discriminate. }
  assert (H2 : log_user_command (Some 9%Z) 5000000001 recent = Some recent')
    by (vm_compute; reflexivity).
  assert (H3 : (5001000001 <= 5000000001 + HOUR)%Z) by (unfold HOUR; lia).
  split; [repeat split; assumption|].
  exact (@X17_recorded_user_is_listed 9%Z 5000000001%Z 5001000001%Z recent recent'
           H1 H2 H3).
Defined.

(** X1 (witness): the only chunk of a two-paragraph message. *)
Lemma X1_split_message_chunk_length_witness :
  let message := lit "first" ++ [LF; LF] ++ lit "second" in
  In message (split_message message) /\
  (len message <= MAX_MESSAGE_LENGTH \/
   (In message (split [LF; LF] message) /\ MAX_MESSAGE_LENGTH < len message)).
Proof.
  intros message.
  assert (H : In message (split_message message)) by (vm_compute; left; reflexivity).
  split; [exact H|].
  exact (@X1_split_message_chunk_length message message H).
Defined.

(** ** Regex search, continued *)

Section RegexSearch.
Context {rt : Runtime}.

(** X18.  For a non-empty pattern: when [re.compile] raises [re.error],
    what the handler passes on for delivery is the invalid-pattern answer
    with the error text and nothing else, the same whatever the corpus
    holds, and the state is left as it was; when the pattern compiles, the
    state is again untouched and what is passed on is the rendering of the
    scan, never an invalid-pattern answer. *)
Theorem X18_re_error_reported_before_scanning
    (has_message : bool) (category pattern : str) (w : World) :
  pattern <> [] ->
  (forall error, re_compile pattern = ReError error ->
     regex_search_pattern has_message category pattern w =
       (Return (deliver has_message (InvalidPattern error)), w) /\
     forall w', fst (regex_search_pattern has_message category pattern w') =
                fst (regex_search_pattern has_message category pattern w)) /\
  (forall compiled, re_compile pattern = Compiled compiled ->
     let found_results :=
       scan (re_search compiled) category (url_contents (globals w)) in
     regex_search_pattern has_message category pattern w =
       (Return (deliver has_message (render category pattern found_results)), w) /\
     forall error,
       ~ In (Reply (InvalidPattern error))
            (deliver has_message (render category pattern found_results))).
Proof.
  intros Hp. apply truthy_true in Hp.
  unfold regex_search_pattern. rewrite Hp. cbn [negb].
  split.
  - intros error He. rewrite He. split; [reflexivity|].
    intros w'. reflexivity.
  - intros compiled He. rewrite He. split; [reflexivity|].
    generalize (scan (re_search compiled) category (url_contents (globals w))).
    intros found error. unfold deliver, render.
    destruct has_message; destruct found; simpl; intros [H|H];
      try discriminate; try contradiction.
Qed.

End RegexSearch.

(** X18 (witness): the pattern [(] is no valid pattern. *)
Lemma X18_re_error_witness :
  let w := example_world 0 [Byte.x1f] in
  let error := lit "missing ), unterminated subpattern at position 0" in
  (lit "(" <> [] /\ @re_compile example_runtime (lit "(") = ReError error) /\
  @regex_search_pattern example_runtime true (lit "all") (lit "(") w =
    (Return [Reply (InvalidPattern error)], w).
Proof.
  intros w error.
  assert (H1 : lit "(" <> []) by (vm_compute; discriminate).
  assert (H2 : @re_compile example_runtime (lit "(") = ReError error)
    by (vm_compute; reflexivity).
  split; [split; assumption|].
  exact (proj1 (proj1 (@X18_re_error_reported_before_scanning example_runtime
                         true (lit "all") (lit "(") w H1) error H2)).
Defined.
